(** * Volcano-Engine-websocket-TTS: a shallow embedding of the relay core

    The development follows the Go sources:
    - [metrics.go]: the [Metrics] registry ([RecordRequest], [RecordError],
      the derived getters);
    - the main file: the wire-frame codec ([defaultHeader],
      [setupByteDanceInput], [parseByteDanceResponse]), the upstream relay
      [streamSynthesize] with its semaphore, and the speed handling of
      [handleOpenAITTSRequest].

    Go's [int] and [int64] are 64-bit two's complement integers; they are
    modelled as [Z] with the wrap-around written out ([wrap64]).  A byte
    slice is a list of [Byte.byte], a Go [string] is a [string] (a
    sequence of bytes, so [String.length] is Go's [len]), and a
    [float64] is a primitive binary64 float. *)

From Stdlib Require Import ZArith List String Bool Lia.
From Stdlib Require Import Floats.
Import ListNotations.
Open Scope Z_scope.

(** ** Machine integers *)

Definition int64_min : Z := - 2 ^ 63.
Definition int64_max : Z := 2 ^ 63 - 1.

(** The value of a 64-bit signed integer after an arithmetic operation
    whose mathematical result is [z]. *)
Definition wrap64 (z : Z) : Z := (z + 2 ^ 63) mod 2 ^ 64 - 2 ^ 63.

Definition in_int64 (z : Z) : Prop := int64_min <= z <= int64_max.

(** ** Binary64 arithmetic

    A Go [float64] is a primitive binary64 float of the kernel;
    [Prim2SF] gives its sign, mantissa and exponent, and the
    operations round to nearest even as Go's do. *)

(** float64(n): the integer rounded to nearest even. *)
Definition float64_of_int (z : Z) : float :=
  SF2Prim (binary_normalize prec emax z 0 false).

(** ** metrics.go *)

Module MetricsGo.

(** type ErrorRecord struct *)
Record ErrorRecord : Type := {
  Timestamp : string;
  ErrorType : string;
  Message : string
}.

(** type Metrics struct.  The mutex [mu] is not a field of the model:
    every method runs under it, so a method is one atomic step.
    [startTime] is read by [GetUptime] only. *)
Record Metrics : Type := {
  requestCount : Z;
  successCount : Z;
  errorCount : Z;
  activeConnections : Z;
  currentCalls : Z;
  totalResponseTime : Z;
  errors : list ErrorRecord
}.

(** func initMetrics(): the zero value of every counter and
    [make([]ErrorRecord, 0)]. *)
Definition initMetrics : Metrics := {|
  requestCount := 0;
  successCount := 0;
  errorCount := 0;
  activeConnections := 0;
  currentCalls := 0;
  totalResponseTime := 0;
  errors := []
|}.

(** func (m *Metrics) RecordRequest(success bool, responseTimeMs int64) *)
Definition RecordRequest (m : Metrics) (success : bool) (responseTimeMs : Z)
  : Metrics := {|
  requestCount := wrap64 (requestCount m + 1);
  successCount :=
    if success then wrap64 (successCount m + 1) else successCount m;
  errorCount :=
    if success then errorCount m else wrap64 (errorCount m + 1);
  activeConnections := activeConnections m;
  currentCalls := currentCalls m;
  totalResponseTime := wrap64 (totalResponseTime m + responseTimeMs);
  errors := errors m
|}.

(** The slice expression [s[n:]]. *)
Definition slice_from {A : Type} (n : nat) (s : list A) : list A := skipn n s.

(** func (m *Metrics) RecordError(errorType, message string).
    [now] is [time.Now().Format(time.RFC3339)], read from the clock. *)
Definition RecordError (m : Metrics) (now errorType message : string)
  : Metrics :=
  let record :=
    {| Timestamp := now; ErrorType := errorType; Message := message |} in
  let appended := errors m ++ [record] in
  {|
    requestCount := requestCount m;
    successCount := successCount m;
    errorCount := errorCount m;
    activeConnections := activeConnections m;
    currentCalls := currentCalls m;
    totalResponseTime := totalResponseTime m;
    errors :=
      if (100 <? List.length appended)%nat
      then slice_from (List.length appended - 100) appended
      else appended
  |}.

Definition set_activeConnections (m : Metrics) (v : Z) : Metrics := {|
  requestCount := requestCount m;
  successCount := successCount m;
  errorCount := errorCount m;
  activeConnections := v;
  currentCalls := currentCalls m;
  totalResponseTime := totalResponseTime m;
  errors := errors m
|}.

Definition set_currentCalls (m : Metrics) (v : Z) : Metrics := {|
  requestCount := requestCount m;
  successCount := successCount m;
  errorCount := errorCount m;
  activeConnections := activeConnections m;
  currentCalls := v;
  totalResponseTime := totalResponseTime m;
  errors := errors m
|}.

(** func (m *Metrics) IncActiveConnections() *)
Definition IncActiveConnections (m : Metrics) : Metrics :=
  set_activeConnections m (wrap64 (activeConnections m + 1)).

(** func (m *Metrics) DecActiveConnections() *)
Definition DecActiveConnections (m : Metrics) : Metrics :=
  if 0 <? activeConnections m
  then set_activeConnections m (wrap64 (activeConnections m - 1))
  else m.

(** func (m *Metrics) IncCurrentCalls() *)
Definition IncCurrentCalls (m : Metrics) : Metrics :=
  set_currentCalls m (wrap64 (currentCalls m + 1)).

(** func (m *Metrics) DecCurrentCalls() *)
Definition DecCurrentCalls (m : Metrics) : Metrics :=
  if 0 <? currentCalls m
  then set_currentCalls m (wrap64 (currentCalls m - 1))
  else m.

(** func (m *Metrics) GetSuccessRate() float64 *)
Definition GetSuccessRate (m : Metrics) : float :=
  if requestCount m =? 0
  then 100%float
  else (float64_of_int (successCount m) / float64_of_int (requestCount m)
        * 100)%float.

(** func (m *Metrics) GetAvgResponseTime() int.  Go's integer division
    truncates toward zero. *)
Definition GetAvgResponseTime (m : Metrics) : Z :=
  if requestCount m =? 0
  then 0
  else wrap64 (Z.quot (totalResponseTime m) (requestCount m)).

(** func (m *Metrics) GetRequestCount() int *)
Definition GetRequestCount (m : Metrics) : Z := requestCount m.

(** func (m *Metrics) GetErrorCount() int *)
Definition GetErrorCount (m : Metrics) : Z := errorCount m.

(** func (m *Metrics) GetErrorRecords() []ErrorRecord: a copy. *)
Definition GetErrorRecords (m : Metrics) : list ErrorRecord := errors m.

(** The mutating methods, as the calls a client of the registry makes. *)
Inductive Call : Type :=
| CallRecordRequest (success : bool) (responseTimeMs : Z)
| CallRecordError (now errorType message : string)
| CallIncActiveConnections
| CallDecActiveConnections
| CallIncCurrentCalls
| CallDecCurrentCalls.

Definition apply_call (m : Metrics) (c : Call) : Metrics :=
  match c with
  | CallRecordRequest success ms => RecordRequest m success ms
  | CallRecordError now ty msg => RecordError m now ty msg
  | CallIncActiveConnections => IncActiveConnections m
  | CallDecActiveConnections => DecActiveConnections m
  | CallIncCurrentCalls => IncCurrentCalls m
  | CallDecCurrentCalls => DecCurrentCalls m
  end.

(** The registry after a sequence of calls, in the order the mutex
    serialises them. *)
Definition run_calls (m : Metrics) (cs : list Call) : Metrics :=
  fold_left apply_call cs m.

(** The number of [RecordRequest] calls in a sequence. *)
Definition requests (cs : list Call) : nat :=
  List.length (filter (fun c => match c with CallRecordRequest _ _ => true | _ => false end) cs).

(** The records the [RecordError] calls of a sequence append, in order. *)
Fixpoint recorded (cs : list Call) : list ErrorRecord :=
  match cs with
  | [] => []
  | CallRecordError now ty msg :: cs' =>
      {| Timestamp := now; ErrorType := ty; Message := msg |} :: recorded cs'
  | _ :: cs' => recorded cs'
  end.

(** The [RecordRequest] calls of a sequence that report a success, and
    those that report a failure. *)
Definition successes (cs : list Call) : nat :=
  List.length (filter (fun c => match c with CallRecordRequest true _ => true | _ => false end) cs).

Definition failures (cs : list Call) : nat :=
  List.length (filter (fun c => match c with CallRecordRequest false _ => true | _ => false end) cs).

(** The counters agree with [n] requests, [s] of them successful. *)
Definition counted (n s : nat) (m : Metrics) : Prop :=
  requestCount m = Z.of_nat n /\
  successCount m = Z.of_nat s /\
  errorCount m = Z.of_nat (n - s) /\
  (s <= n)%nat.

(** The last hundred elements of a list, in their order. *)
Definition last100 {A : Type} (l : list A) : list A :=
  skipn (List.length l - 100) l.

End MetricsGo.

(** ** Bytes and big-endian words *)

Definition byte := Byte.byte.

(** The value of a byte, 0..255. *)
Definition byte_val (b : byte) : Z := Z.of_N (Byte.to_N b).

(** byte(z): the low eight bits of an integer. *)
Definition byte_of (z : Z) : byte :=
  match Byte.of_N (Z.to_N (z mod 256)) with
  | Some b => b
  | None => Byte.x00
  end.

(** uint8 arithmetic, uint32(n) and int32(u) conversions. *)
Definition uint8 (z : Z) : Z := z mod 2 ^ 8.
Definition uint32 (z : Z) : Z := z mod 2 ^ 32.
Definition int32 (u : Z) : Z := (u + 2 ^ 31) mod 2 ^ 32 - 2 ^ 31.

(** s[i] for an index the code has checked to be in range. *)
Definition index (s : list byte) (i : nat) : Z := byte_val (nth i s Byte.x00).

(** The slice expression [s[n:]]. *)
Definition bytes_from (n : nat) (s : list byte) : list byte := skipn n s.

(** binary.BigEndian.Uint32(b) *)
Definition BigEndian_Uint32 (b : list byte) : Z :=
  Z.lor (Z.lor (Z.lor (Z.shiftl (index b 0) 24) (Z.shiftl (index b 1) 16))
               (Z.shiftl (index b 2) 8))
        (index b 3).

(** binary.BigEndian.PutUint32(b, v) on a fresh 4-byte slice. *)
Definition BigEndian_PutUint32 (v : Z) : list byte :=
  [byte_of (Z.shiftr v 24); byte_of (Z.shiftr v 16);
   byte_of (Z.shiftr v 8); byte_of v].

(** ** The libraries the main file calls

    compress/gzip, encoding/json and fmt are not part of the repository;
    the functions of the main file are stated over any implementation of
    them. *)

(** interface{} values stored in the request parameters. *)
Inductive JSONValue : Type :=
| JString (s : string)
| JFloat (f : float).

(** map[string]map[string]interface{}, as the entries assigned. *)
Definition Params : Type := list (string * list (string * JSONValue)).

Class Libraries : Type := {
  (* what a gzip.Writer emits for one Write followed by Close *)
  gzip_write : list byte -> list byte;
  (* gzip.NewReader followed by io.ReadAll; None when either fails *)
  gzip_read : list byte -> option (list byte);
  (* json.Marshal; None when it returns an error *)
  json_Marshal : Params -> option (list byte)
}.

(** ** The main file *)

Module MainGo.

Import MetricsGo.

(** type Config struct: the fields the relay reads. *)
Record Config : Type := {
  ByteDanceAppID : string;
  ByteDanceToken : string;
  ByteDanceCluster : string;
  ByteDanceVoiceType : string;
  OpenAITTSAPIKey : string;
  MaxConnections : Z;
  MaxRequestSizeMB : Z;
  MaxTextLength : Z;
  MaxConcurrentCalls : Z
}.

Definition optSubmit : string := "submit".

(** Errors of gorilla/websocket's ReadMessage: a [*CloseError] carrying
    the close code of the peer (or 1006 when the connection dropped
    without a close frame), or any other error (timeout, reset). *)
Inductive ReadError : Type :=
| CloseError (Code : Z) (Text : string)
| OtherReadError (msg : string).

Definition CloseGoingAway : Z := 1001.
Definition CloseAbnormalClosure : Z := 1006.

(** websocket.IsUnexpectedCloseError of gorilla/websocket, a library
    function: it "returns boolean indicating whether the error is a
    *CloseError with a code not in the list of expected codes". *)
Definition IsUnexpectedCloseError (err : ReadError) (expectedCodes : list Z)
  : bool :=
  match err with
  | CloseError code _ => negb (existsb (Z.eqb code) expectedCodes)
  | OtherReadError _ => false
  end.

(** The errors [parseByteDanceResponse] builds. *)
Inductive ParseError : Type :=
| TooShort                 (* invalid response: too short *)
| HeaderExceedsData        (* invalid response: header size exceeds data length *)
| AudioInsufficient        (* invalid audio response: insufficient data *)
| ErrorInsufficient        (* invalid error response: insufficient data *)
| FrontendInsufficient     (* invalid frontend message: insufficient data *)
| ServerError (code : Z) (errorMsg : list byte)  (* server error (code: %d): %s *)
| UnknownMessageType (messageType : Z).          (* unknown message type: %d *)

(** The sentinel errors of the main file, with what wraps them. *)
Inductive Error : Type :=
| ErrTextTooLong (len max : Z)
| ErrTooManyConnections (max : Z)
| ErrWebSocketDialFailed
| ErrMessageWriteFailed
| ErrMessageReadFailed (cause : ReadError)
| ErrResponseParseFailed (cause : ParseError)
| ErrMarshalFailed.        (* failed to marshal TTS parameters *)

(** var defaultHeader = []byte{0x11, 0x10, 0x11, 0x00} *)
Definition defaultHeader : list byte :=
  [Byte.x11; Byte.x10; Byte.x11; Byte.x00].

(** type SynthResp struct *)
Record SynthResp : Type := {
  Audio : list byte;
  IsLast : bool
}.

Definition zeroSynthResp : SynthResp := {| Audio := []; IsLast := false |}.

(** The [params] map [setupByteDanceInput] fills in, in the order of its
    assignments. *)
Definition requestParams (appConfig : Config) (reqID text opt : string)
    (speed : float) : Params :=
  let appID := ByteDanceAppID appConfig in
  let token := ByteDanceToken appConfig in
  let cluster := ByteDanceCluster appConfig in
  let voiceType := ByteDanceVoiceType appConfig in
  [ ("app"%string,
      [ ("appid"%string, JString appID);
        ("token"%string, JString token);
        ("cluster"%string, JString cluster) ]);
    ("user"%string,
      [ ("uid"%string, JString "uid") ]);
    ("audio"%string,
      [ ("voice_type"%string, JString voiceType);
        ("encoding"%string, JString "mp3");
        ("speed_ratio"%string, JFloat speed);
        ("volume_ratio"%string, JFloat 1%float);
        ("pitch_ratio"%string, JFloat 1%float) ]);
    ("request"%string,
      [ ("reqid"%string, JString reqID);
        ("text"%string, JString text);
        ("text_type"%string, JString "plain");
        ("operation"%string, JString opt) ]) ].

(** func setupByteDanceInput(text, opt string, speed float64) ([]byte, error).
    [reqID] is [uuid.NewV4().String()], drawn afresh by every call. *)
Definition setupByteDanceInput {L : Libraries} (appConfig : Config)
    (reqID : string) (text opt : string) (speed : float)
  : list byte + Error :=
  if MaxTextLength appConfig <? Z.of_nat (String.length text)
  then inr (ErrTextTooLong (Z.of_nat (String.length text))
                           (MaxTextLength appConfig))
  else
    match json_Marshal (requestParams appConfig reqID text opt speed) with
    | None => inr ErrMarshalFailed
    | Some resStr => inl resStr
    end.

(** func gzipCompress(input []byte) []byte *)
Definition gzipCompress {L : Libraries} (input : list byte) : list byte :=
  gzip_write input.

(** func gzipDecompress(input []byte) []byte: the input itself when the
    reader fails. *)
Definition gzipDecompress {L : Libraries} (input : list byte) : list byte :=
  match gzip_read input with
  | None => input
  | Some out => out
  end.

(** The [switch messageType] of [parseByteDanceResponse], on the fields
    read from the header and the payload behind it.  The frontend case
    only prints the message. *)
Definition dispatchMessage {L : Libraries}
    (messageType messageTypeSpecificFlags messageCompression : Z)
    (payload : list byte) : SynthResp * option ParseError :=
  let resp := zeroSynthResp in
  if messageType =? 0xb then
    if messageTypeSpecificFlags =? 0 then (resp, None)
    else if (List.length payload <? 8)%nat then (resp, Some AudioInsufficient)
    else
      let sequenceNumber := int32 (BigEndian_Uint32 (firstn 4 payload)) in
      let audioData := bytes_from 8 payload in
      let resp := {| Audio := Audio resp ++ audioData; IsLast := IsLast resp |} in
      if sequenceNumber <? 0
      then ({| Audio := Audio resp; IsLast := true |}, None)
      else (resp, None)
  else if messageType =? 0xf then
    if (List.length payload <? 8)%nat then (resp, Some ErrorInsufficient)
    else
      let code := int32 (BigEndian_Uint32 (firstn 4 payload)) in
      let errorData := bytes_from 8 payload in
      let errorData :=
        if messageCompression =? 1 then gzipDecompress errorData
        else errorData in
      (resp, Some (ServerError code errorData))
  else if messageType =? 0xc then
    if (List.length payload <? 4)%nat then (resp, Some FrontendInsufficient)
    else (resp, None)
  else (resp, Some (UnknownMessageType messageType)).

(** func parseByteDanceResponse(res []byte) (resp SynthResp, err error) *)
Definition parseByteDanceResponse {L : Libraries} (res : list byte)
  : SynthResp * option ParseError :=
  if (List.length res <? 4)%nat then (zeroSynthResp, Some TooShort)
  else
    let headSize := Z.land (index res 0) 0x0f in
    let messageType := Z.shiftr (index res 1) 4 in
    let messageTypeSpecificFlags := Z.land (index res 1) 0x0f in
    let messageCompression := Z.land (index res 2) 0x0f in
    if Z.of_nat (List.length res) <? uint8 (headSize * 4)
    then (zeroSynthResp, Some HeaderExceedsData)
    else
      let payload := bytes_from (Z.to_nat (uint8 (headSize * 4))) res in
      dispatchMessage messageType messageTypeSpecificFlags
                      messageCompression payload.


(** *** The upstream connection

    What the provider's end of the WebSocket does during one call: whether
    the dial and the write fail, and what each [ReadMessage] returns, in
    order.  A call that has consumed all of [reads] is blocked in its next
    read. *)
Inductive ReadResult : Type :=
| ReadMessage (message : list byte)
| ReadFails (err : ReadError).

Record Upstream : Type := {
  dial_fails : bool;
  write_fails : bool;
  reads : list ReadResult
}.

(** The network operations a call performs, in order. *)
Inductive NetOp : Type :=
| NetDial
| NetWriteMessage (data : list byte)
| NetReadMessage
| NetClose.

(** What [streamSynthesize] returns: [([]byte, error)]. *)
Inductive Result : Type :=
| Returns (audio : list byte)
| Fails (err : Error).

(** The [for] loop of [streamSynthesize], from the state of [audio] at the
    top of an iteration.  [None]: the loop is waiting for a read the
    upstream has not answered. *)
Fixpoint receiveLoop {L : Libraries} (rs : list ReadResult)
    (audio : list byte) : option Result * list NetOp :=
  match rs with
  | [] => (None, [NetReadMessage])
  | ReadFails err :: _ =>
      if (0 <? List.length audio)%nat
         && IsUnexpectedCloseError err [CloseGoingAway; CloseAbnormalClosure]
      then (Some (Returns audio), [NetReadMessage])
      else (Some (Fails (ErrMessageReadFailed err)), [NetReadMessage])
  | ReadMessage message :: rs' =>
      match parseByteDanceResponse message with
      | (_, Some err) =>
          (Some (Fails (ErrResponseParseFailed err)), [NetReadMessage])
      | (resp, None) =>
          let audio := audio ++ Audio resp in
          if IsLast resp
          then (Some (Returns audio), [NetReadMessage])
          else
            let (r, ops) := receiveLoop rs' audio in
            (r, NetReadMessage :: ops)
      end
  end.

(** The request frame [streamSynthesize] assembles from the compressed
    input: [clientRequest]. *)
Definition clientRequest (input : list byte) : list byte :=
  let payloadSize := Z.of_nat (List.length input) in
  let payloadArr := BigEndian_PutUint32 (uint32 payloadSize) in
  (defaultHeader ++ payloadArr) ++ input.

(** The body of [streamSynthesize] once the semaphore is held: from
    [setupByteDanceInput] to the return.  [c.Close()] is deferred from
    the successful dial on. *)
Definition synthesizeAdmitted {L : Libraries} (appConfig : Config)
    (up : Upstream) (reqID text : string) (speed : float)
  : option Result * list NetOp :=
  match setupByteDanceInput appConfig reqID text optSubmit speed with
  | inr err => (Some (Fails err), [])
  | inl input =>
      let input := gzipCompress input in
      let request := clientRequest input in
      if dial_fails up
      then (Some (Fails ErrWebSocketDialFailed), [NetDial])
      else if write_fails up
      then (Some (Fails ErrMessageWriteFailed),
            [NetDial; NetWriteMessage request; NetClose])
      else
        let (r, ops) := receiveLoop (reads up) [] in
        (r, NetDial :: NetWriteMessage request :: ops
              ++ match r with Some _ => [NetClose] | None => [] end)
  end.

(** *** The semaphore

    [semaphore] is a channel of capacity [MaxConcurrentCalls]; its state is
    the number of elements buffered in it, one per call in flight. *)

(** [select { case semaphore <- struct{}{}: ... default: ... }]: the send
    proceeds when the buffer has room, and the default case runs
    otherwise. *)
Definition trySend (appConfig : Config) (buffered : nat) : option nat :=
  if Z.of_nat buffered <? MaxConcurrentCalls appConfig
  then Some (S buffered)
  else None.

(** [<-semaphore] on a buffer that holds an element. *)
Definition receive (buffered : nat) : nat := Nat.pred buffered.

(** The process-wide state [streamSynthesize] works on. *)
Record Globals : Type := {
  semaphore : nat;
  GlobalMetrics : Metrics
}.

(** The first [select] of [streamSynthesize]. *)
Definition acquire (appConfig : Config) (g : Globals) : Globals + Error :=
  match trySend appConfig (semaphore g) with
  | Some n =>
      inl {| semaphore := n;
             GlobalMetrics := IncCurrentCalls (GlobalMetrics g) |}
  | None => inr (ErrTooManyConnections (MaxConcurrentCalls appConfig))
  end.

(** The function deferred by the first [select]. *)
Definition release (g : Globals) : Globals :=
  {| semaphore := receive (semaphore g);
     GlobalMetrics := DecCurrentCalls (GlobalMetrics g) |}.

(** func streamSynthesize(text, voiceType string, speed float64) ([]byte, error),
    with the network operations performed and the globals it leaves. *)
Definition streamSynthesize {L : Libraries} (appConfig : Config)
    (up : Upstream) (reqID : string) (g : Globals)
    (text voiceType : string) (speed : float)
  : (option Result * list NetOp) * Globals :=
  match acquire appConfig g with
  | inr err => ((Some (Fails err), []), g)
  | inl g1 =>
      let out := synthesizeAdmitted appConfig up reqID text speed in
      (out, match fst out with Some _ => release g1 | None => g1 end)
  end.

(** *** The request handler *)

(** type OpenAITTSRequest struct *)
Record OpenAITTSRequest : Type := {
  Model : string;
  Input : string;
  Voice : string;
  ResponseFormat : string;
  Speed : float
}.

(** What the handler reads of the HTTP request: the Authorization header
    and the result of [c.ShouldBindJSON(&req)] ([None] when it fails). *)
Record HTTPRequest : Type := {
  Authorization : string;
  boundJSON : option OpenAITTSRequest
}.

(** The double quote, which the string notation cannot hold. *)
Definition dquote : string := String (Ascii.ascii_of_nat 34) EmptyString.

Definition illegalChars : string :=
  ("[](){}<>()[]{}<>&^%$#@!~`" ++ dquote ++ "'")%string.

Fixpoint contains (c : Ascii.ascii) (s : string) : bool :=
  match s with
  | EmptyString => false
  | String c' s' => Ascii.eqb c c' || contains c s'
  end.

Fixpoint no_illegal (key : string) : bool :=
  match key with
  | EmptyString => true
  | String char key' => negb (contains char illegalChars) && no_illegal key'
  end.

(** func isValidAPIKey(key string) bool.  The illegal characters are
    ASCII, so ranging over the bytes finds what ranging over the runes
    finds. *)
Definition isValidAPIKey (key : string) : bool :=
  if String.eqb key "" then false else no_illegal key.

(** func mapOpenAIVoiceToByteDance(openAIVoice string) string *)
Definition mapOpenAIVoiceToByteDance (openAIVoice : string) : string :=
  if existsb (String.eqb openAIVoice)
       ["alloy"; "echo"; "fable"; "onyx"; "nova"; "shimmer"]%string
  then openAIVoice
  else "alloy"%string.

Definition StatusBadRequest : Z := 400.
Definition StatusUnauthorized : Z := 401.
Definition StatusServiceUnavailable : Z := 503.

(** Where [handleOpenAITTSRequest] stands after its checks: it has
    answered with an error, or it calls
    [streamSynthesize(req.Input, byteDanceVoice, speed)]. *)
Inductive Step : Type :=
| Respond (statusCode : Z) (errorType : string)
| CallStreamSynthesize (text voiceType : string) (speed : float).

(** The part of [handleOpenAITTSRequest] from the speed default to the
    call. *)
Definition checkSpeedAndCall (req : OpenAITTSRequest) : Step :=
  let speed := Speed req in
  let speed := if PrimFloat.eqb speed 0 then 1%float else speed in
  if PrimFloat.ltb speed 0.5 || PrimFloat.ltb 2 speed
  then Respond StatusBadRequest "invalid_request"
  else
    let byteDanceVoice := mapOpenAIVoiceToByteDance (Voice req) in
    CallStreamSynthesize (Input req) byteDanceVoice speed.

(** func handleOpenAITTSRequest(c *gin.Context), up to the call of
    [streamSynthesize].  [currentConnections] is read after
    [IncActiveConnections]. *)
Definition handleOpenAITTSRequest (appConfig : Config) (m : Metrics)
    (c : HTTPRequest) : Step :=
  let m := IncActiveConnections m in
  let currentConnections := activeConnections m in
  if MaxConnections appConfig <? currentConnections
  then Respond StatusServiceUnavailable "service_overloaded"
  else
    let apiKey := Authorization c in
    let apiKey :=
      if (7 <? String.length apiKey)%nat
         && String.eqb (String.substring 0 7 apiKey) "Bearer "
      then String.substring 7 (String.length apiKey - 7) apiKey
      else apiKey in
    if negb (isValidAPIKey apiKey)
    then Respond StatusUnauthorized "invalid_api_key"
    else if negb (String.eqb (OpenAITTSAPIKey appConfig) "")
            && negb (String.eqb apiKey (OpenAITTSAPIKey appConfig))
    then Respond StatusUnauthorized "unauthorized"
    else
      match boundJSON c with
      | None => Respond StatusBadRequest "invalid_request"
      | Some req =>
          if String.eqb (Input req) ""
          then Respond StatusBadRequest "invalid_request"
          else if String.eqb (Voice req) ""
          then Respond StatusBadRequest "invalid_request"
          else checkSpeedAndCall req
      end.

(** The speed after the default for an absent (zero) value. *)
Definition defaulted (speed : float) : float :=
  if PrimFloat.eqb speed 0 then 1%float else speed.

(** The clamp the interface description speaks of: a speed below 0.5
    becomes 0.5, one above 2.0 becomes 2.0, an absent one 1.0. *)
Definition clamp_speed (speed : float) : float :=
  let speed := if PrimFloat.eqb speed 0 then 1%float else speed in
  if PrimFloat.ltb speed 0.5 then 0.5%float
  else if PrimFloat.ltb 2 speed then 2%float
  else speed.

(** An audio frame with a four-byte header: flags 1, the sequence number
    and the payload size in big-endian, then the audio. *)
Definition audioFrame (sequenceNumber : Z) (audioBytes : list byte)
  : list byte :=
  [Byte.x11; Byte.xb1; Byte.x10; Byte.x00]
  ++ BigEndian_PutUint32 (uint32 sequenceNumber)
  ++ BigEndian_PutUint32 (uint32 (Z.of_nat (List.length audioBytes)))
  ++ audioBytes.

(** *** Configuration loading *)

(** os.Getenv: the value of a variable, empty when it is not set. *)
Definition Environ : Type := string -> string.

(** strconv.Atoi and time.ParseDuration (in nanoseconds), library
    functions; [None] when they return an error. *)
Class Parsers : Type := {
  strconv_Atoi : string -> option Z;
  time_ParseDuration : string -> option Z
}.

(** The fields of [Config] the relay does not read. *)
Record ConfigRest : Type := {
  ServerHost : string;
  ServerPort : string;
  DialTimeout : Z;
  ReadTimeout : Z;
  WriteTimeout : Z;
  LogLevel : string
}.

(** time.Second, in nanoseconds. *)
Definition Second : Z := 1000000000.

(** func getEnv(key, defaultValue string) string *)
Definition getEnv (env : Environ) (key defaultValue : string) : string :=
  let value := env key in
  if negb (String.eqb value "") then value else defaultValue.

(** func getEnvInt(key string, defaultValue int) int *)
Definition getEnvInt {P : Parsers} (env : Environ) (key : string)
    (defaultValue : Z) : Z :=
  let value := env key in
  if negb (String.eqb value "")
  then match strconv_Atoi value with
       | Some intValue => intValue
       | None => defaultValue
       end
  else defaultValue.

(** func getEnvDuration(key string, defaultValue time.Duration) time.Duration *)
Definition getEnvDuration {P : Parsers} (env : Environ) (key : string)
    (defaultValue : Z) : Z :=
  let value := env key in
  if negb (String.eqb value "")
  then match time_ParseDuration value with
       | Some duration => duration
       | None => defaultValue
       end
  else defaultValue.

(** func LoadConfig() *Config *)
Definition LoadConfig {P : Parsers} (env : Environ) : Config * ConfigRest :=
  ({| ByteDanceAppID := getEnv env "BYTEDANCE_TTS_APP_ID" "XXX";
      ByteDanceToken := getEnv env "BYTEDANCE_TTS_BEARER_TOKEN" "XXX";
      ByteDanceCluster := getEnv env "BYTEDANCE_TTS_CLUSTER" "xxxx";
      ByteDanceVoiceType := getEnv env "BYTEDANCE_TTS_VOICE_TYPE" "";
      OpenAITTSAPIKey := getEnv env "OPENAI_TTS_API_KEY" "";
      MaxConnections := getEnvInt env "MAX_CONNECTIONS" 100;
      MaxRequestSizeMB := getEnvInt env "MAX_REQUEST_SIZE_MB" 5;
      MaxTextLength := getEnvInt env "MAX_TEXT_LENGTH" 5000;
      MaxConcurrentCalls := getEnvInt env "MAX_CONCURRENT_CALLS" 10 |},
   {| ServerHost := getEnv env "SERVER_HOST" "0.0.0.0";
      ServerPort := getEnv env "SERVER_PORT" "8080";
      DialTimeout := getEnvDuration env "DIAL_TIMEOUT" (10 * Second);
      ReadTimeout := getEnvDuration env "READ_TIMEOUT" (30 * Second);
      WriteTimeout := getEnvDuration env "WRITE_TIMEOUT" (30 * Second);
      LogLevel := getEnv env "LOG_LEVEL" "info" |}).

(** The errors of [ValidateConfig]. *)
Inductive ConfigError : Type :=
| MissingEnvironment (missingEnvs : list string)
    (* missing required environment variables: %v *)
| MustBePositive (name : string).   (* <name> must be positive *)

(** The [missingEnvs] slice [ValidateConfig] collects. *)
Definition missingEnvs (c : Config) : list string :=
  let missing := [] in
  let missing :=
    if String.eqb (ByteDanceAppID c) "XXX"
    then missing ++ ["BYTEDANCE_TTS_APP_ID"%string] else missing in
  let missing :=
    if String.eqb (ByteDanceToken c) "XXX"
    then missing ++ ["BYTEDANCE_TTS_BEARER_TOKEN"%string] else missing in
  let missing :=
    if String.eqb (ByteDanceCluster c) "xxxx"
    then missing ++ ["BYTEDANCE_TTS_CLUSTER"%string] else missing in
  let missing :=
    if String.eqb (ByteDanceVoiceType c) ""
    then missing ++ ["BYTEDANCE_TTS_VOICE_TYPE"%string] else missing in
  missing.

(** func (c *Config) ValidateConfig() error; [None] is nil. *)
Definition ValidateConfig (c : Config) (r : ConfigRest) : option ConfigError :=
  if (0 <? List.length (missingEnvs c))%nat
  then Some (MissingEnvironment (missingEnvs c))
  else if DialTimeout r <=? 0 then Some (MustBePositive "DIAL_TIMEOUT")
  else if ReadTimeout r <=? 0 then Some (MustBePositive "READ_TIMEOUT")
  else if WriteTimeout r <=? 0 then Some (MustBePositive "WRITE_TIMEOUT")
  else if MaxConnections c <=? 0 then Some (MustBePositive "MAX_CONNECTIONS")
  else if MaxRequestSizeMB c <=? 0
  then Some (MustBePositive "MAX_REQUEST_SIZE_MB")
  else if MaxTextLength c <=? 0 then Some (MustBePositive "MAX_TEXT_LENGTH")
  else if MaxConcurrentCalls c <=? 0
  then Some (MustBePositive "MAX_CONCURRENT_CALLS")
  else None.

(** *** The whole request handler *)

(** What the handler sends: [c.JSON(statusCode, ErrorResponse{...})], the
    audio with status 200, or nothing more than the headers when
    [c.Writer.Write] fails. *)
Inductive HTTPResponse : Type :=
| ErrorJSON (statusCode : Z) (errorType : string)
| AudioBody (audioData : list byte)
| AudioWriteFailed.

Definition StatusInternalServerError : Z := 500.

(** The [switch] on [errors.Is] in [handleOpenAITTSRequest].  The cases
    for ErrInvalidAPIKey and ErrUnauthorized match no error
    [streamSynthesize] returns. *)
Definition statusOf (err : Error) : Z * string :=
  match err with
  | ErrTextTooLong _ _ => (StatusBadRequest, "invalid_request"%string)
  | ErrTooManyConnections _ =>
      (StatusServiceUnavailable, "service_overloaded"%string)
  | ErrWebSocketDialFailed =>
      (StatusServiceUnavailable, "upstream_service_unavailable"%string)
  | _ => (StatusInternalServerError, "internal_error"%string)
  end.

(** What one request meets besides the globals: the upstream, the request
    id drawn, [time.Since(startTime).Milliseconds()] and
    [time.Now().Format(time.RFC3339)] when it records, whether writing
    the audio to the client fails, and the texts [fmt] and [err.Error()]
    produce. *)
Record Surroundings : Type := {
  upstream : Upstream;
  requestID : string;
  sinceStartMs : Z;
  timestamp : string;
  clientWriteFails : bool;
  errorText : Error -> string;
  limitText : string
}.

(** func handleOpenAITTSRequest(c *gin.Context), whole: the response
    ([None] while [streamSynthesize] has not returned) and the globals it
    leaves.  [DecActiveConnections] is deferred from the first line. *)
Definition serveOpenAITTSRequest {L : Libraries} (appConfig : Config)
    (w : Surroundings) (g : Globals) (c : HTTPRequest)
  : option HTTPResponse * Globals :=
  let m := IncActiveConnections (GlobalMetrics g) in
  let leave (resp : HTTPResponse) (m : Metrics) :=
    (Some resp,
     {| semaphore := semaphore g;
        GlobalMetrics := DecActiveConnections m |}) in
  let currentConnections := activeConnections m in
  if MaxConnections appConfig <? currentConnections
  then
    let m := RecordRequest m false (sinceStartMs w) in
    let m := RecordError m (timestamp w) "connection_limit" (limitText w) in
    leave (ErrorJSON StatusServiceUnavailable "service_overloaded") m
  else
    let apiKey := Authorization c in
    let apiKey :=
      if (7 <? String.length apiKey)%nat
         && String.eqb (String.substring 0 7 apiKey) "Bearer "
      then String.substring 7 (String.length apiKey - 7) apiKey
      else apiKey in
    if negb (isValidAPIKey apiKey)
    then leave (ErrorJSON StatusUnauthorized "invalid_api_key") m
    else if negb (String.eqb (OpenAITTSAPIKey appConfig) "")
            && negb (String.eqb apiKey (OpenAITTSAPIKey appConfig))
    then leave (ErrorJSON StatusUnauthorized "unauthorized") m
    else
      match boundJSON c with
      | None => leave (ErrorJSON StatusBadRequest "invalid_request") m
      | Some req =>
          if String.eqb (Input req) ""
          then leave (ErrorJSON StatusBadRequest "invalid_request") m
          else if String.eqb (Voice req) ""
          then leave (ErrorJSON StatusBadRequest "invalid_request") m
          else
            match checkSpeedAndCall req with
            | Respond statusCode errorType =>
                leave (ErrorJSON statusCode errorType) m
            | CallStreamSynthesize text byteDanceVoice speed =>
                let '((result, _), g1) :=
                  streamSynthesize appConfig (upstream w) (requestID w)
                    {| semaphore := semaphore g; GlobalMetrics := m |}
                    text byteDanceVoice speed in
                match result with
                | None => (None, g1)
                | Some (Fails err) =>
                    let '(statusCode, errorType) := statusOf err in
                    let m := RecordRequest (GlobalMetrics g1) false
                               (sinceStartMs w) in
                    let m := RecordError m (timestamp w) errorType
                               (errorText w err) in
                    (Some (ErrorJSON statusCode errorType),
                     {| semaphore := semaphore g1;
                        GlobalMetrics := DecActiveConnections m |})
                | Some (Returns audioData) =>
                    if clientWriteFails w
                    then (Some AudioWriteFailed,
                          {| semaphore := semaphore g1;
                             GlobalMetrics :=
                               DecActiveConnections (GlobalMetrics g1) |})
                    else
                      (Some (AudioBody audioData),
                       {| semaphore := semaphore g1;
                          GlobalMetrics :=
                            DecActiveConnections
                              (RecordRequest (GlobalMetrics g1) true
                                 (sinceStartMs w)) |})
                end
            end
      end.

(** The key [handleOpenAITTSRequest] checks: the Authorization header
    without a leading "Bearer ". *)
Definition presentedKey (c : HTTPRequest) : string :=
  let apiKey := Authorization c in
  if (7 <? String.length apiKey)%nat
     && String.eqb (String.substring 0 7 apiKey) "Bearer "
  then String.substring 7 (String.length apiKey - 7) apiKey
  else apiKey.

(** *** Streams of audio chunks *)

(** The reads of a stream of audio frames, each given by its sequence
    number and its audio. *)
Definition audioReads (chunks : list (Z * list byte)) : list ReadResult :=
  map (fun chunk => ReadMessage (audioFrame (fst chunk) (snd chunk))) chunks.

(** *** Sample surroundings, for evaluating the definitions

    A stand-in for the libraries (a stored, uncompressed gzip member is
    replaced by the bytes themselves behind a one-byte tag; every
    parameter map marshals to the same document) and a configuration. *)

Definition sample_libraries : Libraries := {|
  gzip_write := fun input => Byte.x1f :: input;
  gzip_read := fun input =>
    match input with
    | Byte.x1f :: out => Some out
    | _ => None
    end;
  json_Marshal := fun _ => Some [Byte.x7b; Byte.x7d]
|}.

Definition sample_config : Config := {|
  ByteDanceAppID := "app";
  ByteDanceToken := "token";
  ByteDanceCluster := "cluster";
  ByteDanceVoiceType := "voice";
  OpenAITTSAPIKey := "";
  MaxConnections := 100;
  MaxRequestSizeMB := 5;
  MaxTextLength := 5;
  MaxConcurrentCalls := 2
|}.

Definition sample_globals (inFlight : nat) : Globals := {|
  semaphore := inFlight;
  GlobalMetrics := set_currentCalls initMetrics (Z.of_nat inFlight)
|}.

(** An upstream that streams two audio frames, what else a request meets,
    and a request for the text "hello" that leaves the speed out. *)
Definition sample_upstream : Upstream := {|
  dial_fails := false;
  write_fails := false;
  reads := audioReads [(1, [Byte.x41])]
           ++ ReadMessage (audioFrame (-2) [Byte.x42]) :: []
|}.

Definition sample_surroundings (up : Upstream) : Surroundings := {|
  upstream := up;
  requestID := "req-1";
  sinceStartMs := 1500;
  timestamp := "2024-01-01T00:00:00Z";
  clientWriteFails := false;
  errorText := fun _ => "error"%string;
  limitText := "Too many concurrent connections, maximum is 100"
|}.

Definition sample_request (authorization : string) : HTTPRequest := {|
  Authorization := authorization;
  boundJSON := Some {| Model := "tts-1"; Input := "hello"; Voice := "alloy";
                       ResponseFormat := ""; Speed := 0 |}
|}.

End MainGo.

(** A stand-in for the parsers (only the numeral 20 and the duration 5s
    parse) and an environment that sets the four required variables, an
    unparsable MAX_TEXT_LENGTH and MAX_CONCURRENT_CALLS=20. *)
Definition sample_parsers : MainGo.Parsers := {|
  MainGo.strconv_Atoi := fun s => if String.eqb s "20" then Some 20 else None;
  MainGo.time_ParseDuration :=
    fun s => if String.eqb s "5s" then Some (5 * MainGo.Second) else None
|}.

Definition sample_environ : MainGo.Environ := fun key =>
  if String.eqb key "BYTEDANCE_TTS_APP_ID" then "app"%string
  else if String.eqb key "BYTEDANCE_TTS_BEARER_TOKEN" then "token"%string
  else if String.eqb key "BYTEDANCE_TTS_CLUSTER" then "cluster"%string
  else if String.eqb key "BYTEDANCE_TTS_VOICE_TYPE" then "voice"%string
  else if String.eqb key "MAX_TEXT_LENGTH" then "five thousand"%string
  else if String.eqb key "MAX_CONCURRENT_CALLS" then "20"%string
  else ""%string.

(** ** The monitoring file *)

Module MonitoringGo.

Import MainGo.

(** func validateAPIKey(c *gin.Context) bool, on the environment and the
    Authorization header of the request. *)
Definition validateAPIKey (env : Environ) (authHeader : string) : bool :=
  let apiToken := getEnv env "TARGET_API_TOKEN" "" in
  if String.eqb apiToken "" then true
  else if String.eqb authHeader "" then false
  else if (7 <? String.length authHeader)%nat
          && String.eqb (String.substring 0 7 authHeader) "Bearer "
  then String.eqb
         (String.substring 7 (String.length authHeader - 7) authHeader)
         apiToken
  else false.

End MonitoringGo.

(** ** Auxiliary definitions for the registry *)

(** The response times the [RecordRequest] calls of a sequence carry. *)
Fixpoint request_times (cs : list MetricsGo.Call) : list Z :=
  match cs with
  | [] => []
  | MetricsGo.CallRecordRequest _ ms :: cs' => ms :: request_times cs'
  | _ :: cs' => request_times cs'
  end.

(** Their sum. *)
Definition sum_times (cs : list MetricsGo.Call) : Z :=
  fold_right Z.add 0 (request_times cs).

(** ** Definitions for the analysis of binary64 rounding *)

(** The exponent function of binary64, [fexp prec emax]. *)
Definition fexp64 (e : Z) : Z := Z.max (e - 53) (-1074).

Definition two52 : Z := 4503599627370496.
Definition two53 : Z := 9007199254740992.

(** The second half of [binary_round_aux]: a mantissa of 53 bits stays,
    the mantissa 2^53 is renormalised. *)
Definition finish (m2 e1 : Z) : spec_float :=
  let '(mrs, e) := shr_fexp prec emax m2 e1 loc_Exact in
  match shr_m mrs with
  | Z0 => S754_zero false
  | Zpos m => if e <=? emax - prec then S754_finite false m e else S754_infinity false
  | Zneg _ => S754_nan
  end.

(** The mantissa and the exponent of float64(n) for 1 <= n < 2^63: an
    integer of at most 53 bits is exact, a longer one loses its low bits
    and is rounded up when they exceed one half, or equal it with an odd
    mantissa. *)
Definition cvt_up (n : Z) : bool :=
  let n1 := Zdigits2 n - 53 in
  (0 <? n1) && Z.odd (n / 2 ^ (n1 - 1))
  && (negb (n mod 2 ^ (n1 - 1) =? 0) || Z.odd (n / 2 ^ n1)).

Definition cvt_m2 (n : Z) : Z :=
  n / 2 ^ (Zdigits2 n - 53) + (if cvt_up n then 1 else 0).

Definition cvt_m (n : Z) : Z :=
  if Zdigits2 n <=? 53 then n * 2 ^ (53 - Zdigits2 n)
  else if cvt_m2 n =? two53 then two52 else cvt_m2 n.

Definition cvt_e (n : Z) : Z :=
  if Zdigits2 n <=? 53 then Zdigits2 n - 53
  else if cvt_m2 n =? two53 then Zdigits2 n - 53 + 1 else Zdigits2 n - 53.

(** The mantissa of 100.0, whose exponent is -46. *)
Definition m100 : Z := 7036874417766400.

(** * Properties *)

(** ** Machine integers *)

Lemma wrap64_small (z : Z) : in_int64 z -> wrap64 z = z.
Proof.
  unfold in_int64, int64_min, int64_max, wrap64. intros H.
  rewrite Z.mod_small; lia.
Qed.

Lemma wrap64_range (z : Z) : in_int64 (wrap64 z).
Proof.
  unfold in_int64, int64_min, int64_max, wrap64.
  pose proof (Z.mod_pos_bound (z + 2 ^ 63) (2 ^ 64) ltac:(lia)). lia.
Qed.

(** ** Rounding in binary64

    The quotient of two converted counters, multiplied by 100, computed
    on the specification of the primitive floats. *)

(** [iter_pos], the iteration of [shr_1] in [shr], as an iteration over
    [nat]. *)
Lemma iter_pos_nat {A : Type} (f : A -> A) (p : positive) (x : A) :
  iter_pos f p x = Nat.iter (Pos.to_nat p) f x.
Proof.
  revert x. induction p as [p IH|p IH|]; intros x; cbn [iter_pos].
  - rewrite !IH, Pos2Nat.inj_xI.
    replace (S (2 * Pos.to_nat p)) with (Pos.to_nat p + S (Pos.to_nat p))%nat by lia.
    rewrite Nat.iter_add. f_equal. now rewrite Nat.iter_succ_r.
  - rewrite !IH, Pos2Nat.inj_xO.
    replace (2 * Pos.to_nat p)%nat with (Pos.to_nat p + Pos.to_nat p)%nat by lia.
    now rewrite Nat.iter_add.
  - reflexivity.
Qed.

Lemma shr_1_spec (m : Z) (r s : bool) :
  0 <= m ->
  shr_1 {| shr_m := m; shr_r := r; shr_s := s |} =
  {| shr_m := m / 2; shr_r := Z.odd m; shr_s := r || s |}.
Proof.
  intros Hm. destruct m as [|p|p]; [reflexivity| |lia].
  destruct p as [p|p|]; cbn [shr_1].
  - f_equal. change (Z.pos p~1) with (2 * Z.pos p + 1).
    apply (Z.div_unique _ 2 _ 1); lia.
  - f_equal. change (Z.pos p~0) with (2 * Z.pos p).
    apply (Z.div_unique _ 2 _ 0); lia.
  - reflexivity.
Qed.

Lemma mod_pow2_succ_zero (m : Z) (n : Z) :
  0 <= m -> 0 <= n ->
  (m mod 2 ^ (n + 1) =? 0) = negb (Z.odd (m / 2 ^ n)) && (m mod 2 ^ n =? 0).
Proof.
  intros Hm Hn.
  assert (Hp : 0 < 2 ^ n) by (apply Z.pow_pos_nonneg; lia).
  rewrite Z.pow_add_r, Z.pow_1_r by lia.
  rewrite Z.rem_mul_r by lia.
  pose proof (Z.mod_pos_bound m (2 ^ n) Hp) as Hb.
  rewrite (Zmod_odd (m / 2 ^ n)).
  destruct (Z.odd (m / 2 ^ n)); cbn [negb andb].
  - apply Z.eqb_neq. lia.
  - rewrite Z.mul_0_r, Z.add_0_r. reflexivity.
Qed.

Lemma shr_iter_spec (n : nat) (m : Z) (r s : bool) :
  0 <= m ->
  Nat.iter (S n) shr_1 {| shr_m := m; shr_r := r; shr_s := s |} =
  {| shr_m := m / 2 ^ (Z.of_nat n + 1);
     shr_r := Z.odd (m / 2 ^ Z.of_nat n);
     shr_s := r || s || negb (m mod 2 ^ Z.of_nat n =? 0) |}.
Proof.
  intros Hm. induction n as [|n IH].
  - cbn [Nat.iter nat_rect]. rewrite shr_1_spec by assumption.
    change (Z.of_nat 0) with 0. cbn [Z.add]. rewrite Z.pow_1_r, Z.pow_0_r, Z.div_1_r, Z.mod_1_r.
    cbn. now rewrite orb_false_r.
  - change (Nat.iter (S (S n)) shr_1 ?x) with (shr_1 (Nat.iter (S n) shr_1 x)).
    rewrite IH. rewrite shr_1_spec by (apply Z.div_pos; [lia|apply Z.pow_pos_nonneg; lia]).
    rewrite Z.div_div by (try apply Z.pow_pos_nonneg; lia).
    replace (Z.of_nat (S n)) with (Z.of_nat n + 1) by lia.
    f_equal.
    + f_equal. rewrite (Z.pow_add_r 2 (Z.of_nat n + 1) 1) by lia. now rewrite Z.pow_1_r.
    + rewrite (mod_pow2_succ_zero m (Z.of_nat n)) by lia.
      destruct r, s, (Z.odd (m / 2 ^ Z.of_nat n)), (m mod 2 ^ Z.of_nat n =? 0); reflexivity.
Qed.

Lemma digits2_pos_bounds (p : positive) :
  2 ^ (Z.pos (digits2_pos p) - 1) <= Z.pos p < 2 ^ Z.pos (digits2_pos p).
Proof.
  induction p as [p IH|p IH|]; cbn [digits2_pos].
  - rewrite Pos2Z.inj_succ. change (Z.pos p~1) with (2 * Z.pos p + 1).
    replace (Z.succ (Z.pos (digits2_pos p)) - 1) with (Z.succ (Z.pos (digits2_pos p) - 1)) by lia.
    rewrite !Z.pow_succ_r by lia.
    generalize dependent (2 ^ (Z.pos (digits2_pos p) - 1)).
    generalize dependent (2 ^ Z.pos (digits2_pos p)). intros; lia.
  - rewrite Pos2Z.inj_succ. change (Z.pos p~0) with (2 * Z.pos p).
    replace (Z.succ (Z.pos (digits2_pos p)) - 1) with (Z.succ (Z.pos (digits2_pos p) - 1)) by lia.
    rewrite !Z.pow_succ_r by lia.
    generalize dependent (2 ^ (Z.pos (digits2_pos p) - 1)).
    generalize dependent (2 ^ Z.pos (digits2_pos p)). intros; lia.
  - cbn. lia.
Qed.

Lemma Zdigits2_unique (m k : Z) :
  2 ^ (k - 1) <= m < 2 ^ k -> 0 < m -> Zdigits2 m = k.
Proof.
  intros Hb Hm. destruct m as [|p|p]; try lia. cbn [Zdigits2].
  pose proof (digits2_pos_bounds p) as Hd.
  assert (Hk : 0 < k).
  { destruct (Z.lt_ge_cases 0 k) as [|Hk]; [assumption|].
    rewrite (Z.pow_neg_r 2 (k - 1)) in Hb by lia.
    destruct (Z.eq_dec k 0) as [->|]; [cbn in Hb; lia|].
    rewrite (Z.pow_neg_r 2 k) in Hb by lia. lia. }
  destruct (Z.lt_trichotomy (Z.pos (digits2_pos p)) k) as [H|[H|H]]; [|assumption|].
  - assert (2 ^ Z.pos (digits2_pos p) <= 2 ^ (k - 1)) by (apply Z.pow_le_mono_r; lia). lia.
  - assert (2 ^ k <= 2 ^ (Z.pos (digits2_pos p) - 1)) by (apply Z.pow_le_mono_r; lia). lia.
Qed.

Lemma fexp64_eq (e : Z) : fexp prec emax e = fexp64 e.
Proof. reflexivity. Qed.

Lemma shr_fexp64 (m e : Z) (l : location) :
  0 <= m ->
  shr_fexp prec emax m e l =
  let n := fexp64 (Zdigits2 m + e) - e in
  if 0 <? n
  then ({| shr_m := m / 2 ^ n;
           shr_r := Z.odd (m / 2 ^ (n - 1));
           shr_s := shr_r (shr_record_of_loc m l) || shr_s (shr_record_of_loc m l)
                    || negb (m mod 2 ^ (n - 1) =? 0) |}, e + n)
  else (shr_record_of_loc m l, e).
Proof.
  intros Hm. unfold shr_fexp. rewrite fexp64_eq. cbv zeta.
  destruct (fexp64 (Zdigits2 m + e) - e) as [|p|p] eqn:En; cbn [shr Z.ltb Z.compare]; try reflexivity.
  rewrite iter_pos_nat.
  destruct (Pos2Nat.is_succ p) as [k Hk]. rewrite Hk.
  assert (Ek : Z.pos p = Z.of_nat k + 1) by lia.
  assert (E0 : shr_record_of_loc m l =
               {| shr_m := m; shr_r := shr_r (shr_record_of_loc m l);
                  shr_s := shr_s (shr_record_of_loc m l) |}).
  { destruct l as [|[| |]]; reflexivity. }
  rewrite E0 at 1. rewrite shr_iter_spec by assumption.
  rewrite Ek. replace (Z.of_nat k + 1 - 1) with (Z.of_nat k) by lia.
  reflexivity.
Qed.

Lemma rne_spec (m : Z) (mrs : shr_record) :
  round_nearest_even m (loc_of_shr_record mrs) =
  m + (if shr_r mrs && (shr_s mrs || Z.odd m) then 1 else 0).
Proof.
  destruct mrs as [m0 [|] [|]]; cbn; rewrite ?Z.add_0_r; try reflexivity.
  rewrite <- Z.negb_odd. destruct (Z.odd m); cbn; lia.
Qed.

Lemma two52_eq : 2 ^ 52 = two52. Proof. reflexivity. Qed.
Lemma two53_eq : 2 ^ 53 = two53. Proof. reflexivity. Qed.

Lemma finish_spec (m2 e1 : Z) :
  two52 <= m2 <= two53 -> -1074 <= e1 -> e1 + 1 <= 971 ->
  finish m2 e1 =
  if m2 =? two53 then S754_finite false (Z.to_pos two52) (e1 + 1)
  else S754_finite false (Z.to_pos m2) e1.
Proof.
  intros Hm He Hmax. unfold finish. rewrite shr_fexp64 by (unfold two52 in *; lia).
  cbv zeta.
  destruct (Z.eqb_spec m2 two53) as [->|Hne].
  - change (Zdigits2 two53) with 54.
    assert (En : fexp64 (54 + e1) - e1 = 1) by (unfold fexp64; lia).
    rewrite En. cbn [Z.ltb Z.compare shr_m].
    change (two53 / 2 ^ 1) with two52. cbn [two52 Z.to_pos].
    assert (Hle : (e1 + 1 <=? emax - prec) = true) by (apply Z.leb_le; cbn; lia).
    now rewrite Hle.
  - assert (Ed : Zdigits2 m2 = 53).
    { apply Zdigits2_unique; [|unfold two52 in *; lia].
      change (2 ^ (53 - 1)) with two52. change (2 ^ 53) with two53. lia. }
    rewrite Ed.
    assert (En : fexp64 (53 + e1) - e1 = 0) by (unfold fexp64; lia).
    rewrite En. cbn [Z.ltb Z.compare shr_record_of_loc shr_m].
    destruct m2 as [|p|p]; try (unfold two52 in *; lia).
    assert (Hle : (e1 <=? emax - prec) = true) by (apply Z.leb_le; cbn; lia).
    now rewrite Hle.
Qed.

Lemma binary_round_aux_finish (mx ex : Z) (lx : location) :
  binary_round_aux prec emax false mx ex lx =
  finish (round_nearest_even (shr_m (fst (shr_fexp prec emax mx ex lx)))
            (loc_of_shr_record (fst (shr_fexp prec emax mx ex lx))))
         (snd (shr_fexp prec emax mx ex lx)).
Proof.
  unfold binary_round_aux, finish.
  destruct (shr_fexp prec emax mx ex lx) as [mrs e]. cbn [fst snd].
  destruct (shr_fexp prec emax _ e loc_Exact) as [mrs' e']. reflexivity.
Qed.

Lemma odd_bit_mod (m n : Z) :
  0 < n -> Z.odd (m / 2 ^ (n - 1)) = true -> m mod 2 ^ n <> 0.
Proof.
  intros Hn Hodd.
  assert (Hp : 0 < 2 ^ (n - 1)) by (apply Z.pow_pos_nonneg; lia).
  replace n with ((n - 1) + 1) at 1 by lia.
  rewrite Z.pow_add_r, Z.pow_1_r by lia.
  rewrite Z.rem_mul_r by lia.
  rewrite (Zmod_odd (m / 2 ^ (n - 1))), Hodd.
  pose proof (Z.mod_pos_bound m (2 ^ (n - 1)) Hp). lia.
Qed.

(** Rounding a mantissa of at least 53 bits, in the normal range. *)
Lemma bra_normal (mx ex : Z) (lx : location) (d : Z) :
  0 < mx -> Zdigits2 mx = d -> 53 <= d ->
  -1074 <= ex + d - 53 -> ex + d - 53 + 1 <= 971 ->
  let n1 := d - 53 in
  let m1 := mx / 2 ^ n1 in
  exists m2,
    two52 <= m1 < two53 /\
    (m2 = m1 \/ (m2 = m1 + 1 /\ (lx <> loc_Exact \/ mx mod 2 ^ n1 <> 0))) /\
    (lx = loc_Exact ->
     m2 = m1 + (if (0 <? n1) && Z.odd (mx / 2 ^ (n1 - 1))
                   && (negb (mx mod 2 ^ (n1 - 1) =? 0) || Z.odd m1)
                then 1 else 0)) /\
    binary_round_aux prec emax false mx ex lx =
    if m2 =? two53 then S754_finite false (Z.to_pos two52) (ex + n1 + 1)
    else S754_finite false (Z.to_pos m2) (ex + n1).
Proof.
  intros Hm Hd H53 Hlo Hhi. cbv zeta.
  assert (Hb : 2 ^ (d - 1) <= mx < 2 ^ d).
  { destruct mx as [|p|p]; try lia. cbn [Zdigits2] in Hd. subst d.
    apply digits2_pos_bounds. }
  assert (Hm1 : two52 <= mx / 2 ^ (d - 53) < two53).
  { assert (Hp : 0 < 2 ^ (d - 53)) by (apply Z.pow_pos_nonneg; lia).
    assert (E1 : 2 ^ (d - 1) = two52 * 2 ^ (d - 53)).
    { rewrite <- two52_eq, <- Z.pow_add_r by lia. f_equal. lia. }
    assert (E2 : 2 ^ d = two53 * 2 ^ (d - 53)).
    { rewrite <- two53_eq, <- Z.pow_add_r by lia. f_equal. lia. }
    split.
    - apply Z.div_le_lower_bound; [assumption|]. rewrite Z.mul_comm. lia.
    - apply Z.div_lt_upper_bound; [assumption|]. rewrite Z.mul_comm. lia. }
  rewrite binary_round_aux_finish, shr_fexp64 by lia. cbv zeta.
  rewrite Hd.
  assert (En : fexp64 (d + ex) - ex = d - 53) by (unfold fexp64; lia).
  rewrite En.
  destruct (Z.ltb_spec 0 (d - 53)) as [Hn|Hn].
  - cbn [fst snd shr_m]. rewrite rne_spec. cbn [shr_r shr_s].
    set (up := Z.odd (mx / 2 ^ (d - 53 - 1)) &&
               (shr_r (shr_record_of_loc mx lx) || shr_s (shr_record_of_loc mx lx)
                || negb (mx mod 2 ^ (d - 53 - 1) =? 0) || Z.odd (mx / 2 ^ (d - 53)))).
    exists (mx / 2 ^ (d - 53) + (if up then 1 else 0)).
    split; [exact Hm1|]. split; [|split].
    + destruct up eqn:Eup; [right|left; lia]. split; [reflexivity|].
      right. apply odd_bit_mod; [assumption|].
      subst up. now apply andb_true_iff in Eup.
    + intros ->. subst up. cbn [shr_record_of_loc shr_r shr_s orb]. reflexivity.
    + rewrite finish_spec; [|destruct up; lia|lia|lia].
      replace (ex + (d - 53)) with (ex + (d - 53)) by lia. reflexivity.
  - assert (Ed : d = 53) by lia.
    replace (d - 53) with 0 in * by lia.
    rewrite ?Z.pow_0_r, ?Z.div_1_r in Hm1 |- *.
    cbn [fst snd]. rewrite rne_spec.
    replace (shr_m (shr_record_of_loc mx lx)) with mx
      by (destruct lx as [|[| |]]; reflexivity).
    set (up := shr_r (shr_record_of_loc mx lx) &&
               (shr_s (shr_record_of_loc mx lx) || Z.odd mx)).
    exists (mx + (if up then 1 else 0)).
    split; [exact Hm1|]. split; [|split].
    + destruct up eqn:Eup; [right|left; lia]. split; [reflexivity|]. left.
      intros ->. subst up. discriminate.
    + intros ->. subst up. cbn. reflexivity.
    + rewrite finish_spec; [|destruct up; lia|lia|lia].
      rewrite Z.add_0_r. reflexivity.
Qed.

(** ** The conversion of an integer *)

Lemma pos_iter_xO (p k : positive) :
  Z.pos (Pos.iter xO p k) = Z.pos p * 2 ^ Z.pos k.
Proof.
  rewrite Pos2Nat.inj_iter.
  rewrite <- (positive_nat_Z k).
  induction (Pos.to_nat k) as [|n IH].
  - cbn. lia.
  - cbn [nat_rect].
    set (q := nat_rect (fun _ : nat => positive) p (fun _ : nat => xO) n) in *.
    change (Z.pos q~0) with (2 * Z.pos q). rewrite IH.
    rewrite Nat2Z.inj_succ, Z.pow_succ_r by lia. ring.
Qed.

Lemma Zdigits2_bounds (n : Z) :
  0 < n -> 2 ^ (Zdigits2 n - 1) <= n < 2 ^ Zdigits2 n /\ 0 < Zdigits2 n.
Proof.
  intros Hn. destruct n as [|p|p]; try lia. cbn [Zdigits2].
  split; [apply digits2_pos_bounds | lia].
Qed.

Lemma Zdigits2_le (n k : Z) :
  0 < n -> 0 <= k -> n < 2 ^ k -> Zdigits2 n <= k.
Proof.
  intros Hn Hk Hlt. destruct (Zdigits2_bounds n Hn) as [[Hlo _] Hd].
  destruct (Z.le_gt_cases (Zdigits2 n) k) as [|Hgt]; [assumption|].
  assert (2 ^ k <= 2 ^ (Zdigits2 n - 1)) by (apply Z.pow_le_mono_r; lia). lia.
Qed.

Lemma cvt_eq (n : Z) :
  1 <= n < 2 ^ 63 ->
  binary_normalize prec emax n 0 false
  = S754_finite false (Z.to_pos (cvt_m n)) (cvt_e n)
  /\ two52 <= cvt_m n < two53.
Proof.
  intros Hn.
  destruct (Zdigits2_bounds n ltac:(lia)) as [Hb Hd0].
  assert (Hd63 : Zdigits2 n <= 63) by (apply Zdigits2_le; lia).
  destruct n as [|p|p]; try lia.
  cbn [binary_normalize]. unfold binary_round. rewrite fexp64_eq.
  change (Z.pos (digits2_pos p)) with (Zdigits2 (Z.pos p)) in *.
  set (d := Zdigits2 (Z.pos p)) in *.
  assert (Ef : fexp64 (d + 0) = d - 53) by (unfold fexp64; lia).
  rewrite Ef. unfold shl_align, cvt_m, cvt_e. fold d.
  destruct (Z.leb_spec d 53) as [Hle|Hgt].
  - (* at most 53 bits: exact *)
    destruct (d - 53 - 0) as [|k|k] eqn:Ek.
    + (* exactly 53 bits *)
      assert (Ed : d = 53) by lia.
      destruct (bra_normal (Z.pos p) 0 loc_Exact d ltac:(lia) eq_refl ltac:(lia)
                  ltac:(lia) ltac:(lia)) as (m2 & Hm1 & _ & Hm2 & Hr).
      specialize (Hm2 eq_refl).
      rewrite Ed in Hm1, Hm2, Hr. change (53 - 53) with 0 in *.
      cbn [Z.ltb Z.compare andb] in Hm2. rewrite Z.pow_0_r, Z.div_1_r, Z.add_0_r in *.
      subst m2. rewrite Hr, Ed.
      destruct (Z.eqb_spec (Z.pos p) two53); [lia|].
      change (53 - 53) with 0. rewrite Z.pow_0_r, Z.mul_1_r. split; [reflexivity|lia].
    + lia.
    + (* fewer than 53 bits: shifted left *)
      assert (Ek' : Z.pos k = 53 - d) by lia.
      assert (Hp : 0 < 2 ^ (53 - d)) by (apply Z.pow_pos_nonneg; lia).
      assert (Hmz : two52 <= Z.pos p * 2 ^ (53 - d) < two53).
      { assert (E1 : two52 = 2 ^ (d - 1) * 2 ^ (53 - d)).
        { rewrite <- two52_eq, <- Z.pow_add_r by lia. f_equal. lia. }
        assert (E2 : two53 = 2 ^ d * 2 ^ (53 - d)).
        { rewrite <- two53_eq, <- Z.pow_add_r by lia. f_equal. lia. }
        rewrite E1, E2. split; [apply Z.mul_le_mono_nonneg_r; lia|].
        apply Z.mul_lt_mono_pos_r; lia. }
      assert (Edz : Zdigits2 (Z.pos (Pos.iter xO p k)) = 53).
      { apply Zdigits2_unique; [|lia]. rewrite pos_iter_xO, Ek'.
        change (2 ^ (53 - 1)) with two52. change (2 ^ 53) with two53. exact Hmz. }
      destruct (bra_normal (Z.pos (Pos.iter xO p k)) (d - 53) loc_Exact 53
                  ltac:(lia) Edz ltac:(lia) ltac:(lia) ltac:(lia))
        as (m2 & Hm1 & _ & Hm2 & Hr).
      specialize (Hm2 eq_refl).
      change (53 - 53) with 0 in *.
      cbn [Z.ltb Z.compare andb] in Hm2. rewrite Z.pow_0_r, Z.div_1_r, Z.add_0_r in *.
      subst m2. rewrite Hr. rewrite pos_iter_xO, Ek' in *.
      destruct (Z.eqb_spec (Z.pos p * 2 ^ (53 - d)) two53); [lia|].
      split; [reflexivity|lia].
  - (* more than 53 bits: rounded *)
    replace (d - 53 - 0) with (d - 53) by lia.
    destruct (d - 53) as [|k|k] eqn:Ek; try lia.
    destruct (bra_normal (Z.pos p) 0 loc_Exact d ltac:(lia) eq_refl ltac:(lia)
                ltac:(lia) ltac:(lia)) as (m2 & Hm1 & _ & Hm2 & Hr).
    specialize (Hm2 eq_refl).
    assert (Em2 : m2 = cvt_m2 (Z.pos p)).
    { rewrite Hm2. unfold cvt_m2, cvt_up. fold d. rewrite Ek. reflexivity. }
    rewrite Hr, <- Em2, Ek. cbn [Z.add].
    destruct (Z.eqb_spec m2 two53) as [E|E].
    + split; [reflexivity|unfold two52, two53; lia].
    + split; [reflexivity|].
      destruct Hm1 as [Hlo Hhi].
      match type of Hm2 with _ = _ + (if ?b then _ else _) => destruct b end; lia.
Qed.

Lemma round_up_mono (s r h : Z) :
  0 < h -> 0 <= s <= r -> s / (h * 2) = r / (h * 2) ->
  Z.odd (s / h) && (negb (s mod h =? 0) || Z.odd (s / (h * 2))) = true ->
  Z.odd (r / h) && (negb (r mod h =? 0) || Z.odd (r / (h * 2))) = true.
Proof.
  intros Hh Hsr Hq.
  rewrite <- Hq. rewrite <- !Z.div_div in * by lia.
  pose proof (Z.div_mod s h ltac:(lia)) as Es.
  pose proof (Z.div_mod r h ltac:(lia)) as Er.
  pose proof (Z.mod_pos_bound s h Hh) as Bs.
  pose proof (Z.mod_pos_bound r h Hh) as Br.
  pose proof (Z.div_mod (s / h) 2 ltac:(lia)) as Es2.
  pose proof (Z.div_mod (r / h) 2 ltac:(lia)) as Er2.
  rewrite (Zmod_odd (s / h)) in Es2. rewrite (Zmod_odd (r / h)) in Er2.
  rewrite <- Hq in Er2.
  destruct (Z.odd (s / h)) eqn:Os; [|discriminate].
  cbn [andb]. intros Hup.
  destruct (Z.odd (r / h)) eqn:Or.
  - cbn [andb]. apply orb_true_iff in Hup. apply orb_true_iff.
    destruct Hup as [Hup|Hup]; [left|right; exact Hup].
    apply negb_true_iff in Hup. apply negb_true_iff.
    apply Z.eqb_neq in Hup. apply Z.eqb_neq.
    assert (r / h = s / h) by lia. nia.
  - exfalso. assert (r / h < s / h) by lia. nia.
Qed.

Lemma cvt_m2_mono (s r : Z) :
  1 <= s <= r -> Zdigits2 s = Zdigits2 r -> 53 < Zdigits2 s ->
  cvt_m2 s <= cvt_m2 r.
Proof.
  intros Hsr Hd H53. unfold cvt_m2, cvt_up. rewrite <- Hd.
  set (n1 := Zdigits2 s - 53) in *.
  assert (Hn1 : 0 < n1) by lia.
  assert (Hp : 0 < 2 ^ (n1 - 1)) by (apply Z.pow_pos_nonneg; lia).
  assert (E2 : 2 ^ n1 = 2 ^ (n1 - 1) * 2).
  { replace n1 with ((n1 - 1) + 1) at 1 by lia.
    now rewrite Z.pow_add_r, Z.pow_1_r by lia. }
  rewrite (proj2 (Z.ltb_lt 0 n1) Hn1). cbn [andb].
  rewrite E2.
  assert (Hdiv : s / (2 ^ (n1 - 1) * 2) <= r / (2 ^ (n1 - 1) * 2))
    by (apply Z.div_le_mono; lia).
  destruct (Z.eq_dec (s / (2 ^ (n1 - 1) * 2)) (r / (2 ^ (n1 - 1) * 2))) as [E|E].
  - pose proof (round_up_mono s r (2 ^ (n1 - 1)) Hp ltac:(lia) E) as Hup.
    rewrite <- E in *.
    destruct (Z.odd (s / 2 ^ (n1 - 1)) && _) eqn:Us.
    + rewrite (Hup eq_refl). lia.
    + destruct (Z.odd (r / 2 ^ (n1 - 1)) && _); lia.
  - destruct (Z.odd (s / 2 ^ (n1 - 1)) && _);
    destruct (Z.odd (r / 2 ^ (n1 - 1)) && _); lia.
Qed.

Lemma Zdigits2_mono (s r : Z) : 0 < s <= r -> Zdigits2 s <= Zdigits2 r.
Proof.
  intros Hsr.
  destruct (Zdigits2_bounds s ltac:(lia)) as [[Hs _] Hds].
  destruct (Zdigits2_bounds r ltac:(lia)) as [[_ Hr] Hdr].
  apply Zdigits2_le; lia.
Qed.

Lemma cvt_m2_range (n : Z) :
  1 <= n -> 53 < Zdigits2 n -> two52 <= cvt_m2 n <= two53.
Proof.
  intros Hn Hd.
  destruct (Zdigits2_bounds n ltac:(lia)) as [Hb _].
  set (d := Zdigits2 n) in *.
  assert (Hp : 0 < 2 ^ (d - 53)) by (apply Z.pow_pos_nonneg; lia).
  assert (E1 : 2 ^ (d - 1) = two52 * 2 ^ (d - 53)).
  { rewrite <- two52_eq, <- Z.pow_add_r by lia. f_equal. lia. }
  assert (E2 : 2 ^ d = two53 * 2 ^ (d - 53)).
  { rewrite <- two53_eq, <- Z.pow_add_r by lia. f_equal. lia. }
  assert (two52 <= n / 2 ^ (d - 53) < two53).
  { split.
    - apply Z.div_le_lower_bound; [assumption|]. rewrite Z.mul_comm. lia.
    - apply Z.div_lt_upper_bound; [assumption|]. rewrite Z.mul_comm. lia. }
  unfold cvt_m2. fold d. destruct (cvt_up n); lia.
Qed.

Lemma cvt_e_range (n : Z) : 1 <= n < 2 ^ 63 -> -52 <= cvt_e n <= 11.
Proof.
  intros Hn.
  destruct (Zdigits2_bounds n ltac:(lia)) as [_ Hd0].
  assert (Hd63 : Zdigits2 n <= 63) by (apply Zdigits2_le; lia).
  unfold cvt_e.
  destruct (Zdigits2 n <=? 53) eqn:E; [apply Z.leb_le in E; lia|].
  apply Z.leb_gt in E. destruct (cvt_m2 n =? two53); lia.
Qed.

(** The conversion is monotone, in the order of canonical floats. *)
Lemma cvt_mono (s r : Z) :
  1 <= s <= r -> r < 2 ^ 63 ->
  cvt_e s < cvt_e r \/ (cvt_e s = cvt_e r /\ cvt_m s <= cvt_m r).
Proof.
  intros Hsr Hr.
  pose proof (Zdigits2_mono s r ltac:(lia)) as Hd.
  destruct (cvt_eq s ltac:(lia)) as [_ Hms].
  destruct (cvt_eq r ltac:(lia)) as [_ Hmr].
  unfold cvt_e, cvt_m in *.
  destruct (Z.leb_spec (Zdigits2 s) 53) as [Hs53|Hs53];
  destruct (Z.leb_spec (Zdigits2 r) 53) as [Hr53|Hr53]; try lia.
  - destruct (Z.eq_dec (Zdigits2 s) (Zdigits2 r)) as [E|E]; [right|left; lia].
    split; [lia|]. rewrite E. apply Z.mul_le_mono_nonneg_r; [|lia].
    apply Z.pow_nonneg; lia.
  - left. destruct (cvt_m2 r =? two53); lia.
  - destruct (Z.eq_dec (Zdigits2 s) (Zdigits2 r)) as [E|E].
    + pose proof (cvt_m2_mono s r Hsr E Hs53) as Hm.
      pose proof (cvt_m2_range s ltac:(lia) Hs53) as Rs.
      pose proof (cvt_m2_range r ltac:(lia) Hr53) as Rr.
      destruct (Z.eqb_spec (cvt_m2 s) two53) as [Es|Es];
      destruct (Z.eqb_spec (cvt_m2 r) two53) as [Er|Er]; try lia.
    + destruct (Z.eqb_spec (cvt_m2 s) two53) as [Es|Es];
      destruct (Z.eqb_spec (cvt_m2 r) two53) as [Er|Er]; try lia.
Qed.

(** ** The quotient of two converted integers *)

Lemma new_location_exact (nb r : Z) :
  new_location nb r = loc_Exact <-> r = 0.
Proof.
  unfold new_location, new_location_even, new_location_odd.
  destruct (Z.even nb); destruct (Z.eqb_spec r 0); split; intros H;
    try reflexivity; try assumption; try discriminate; try contradiction.
Qed.

Lemma SFdiv_le_one (mA mB : positive) (eA eB : Z) :
  two52 <= Z.pos mA < two53 -> two52 <= Z.pos mB < two53 ->
  -52 <= eA <= 11 -> -52 <= eB <= 11 ->
  eA < eB \/ (eA = eB /\ Z.pos mA <= Z.pos mB) ->
  exists mq eq,
    SFdiv prec emax (S754_finite false mA eA) (S754_finite false mB eB)
    = S754_finite false (Z.to_pos mq) eq /\
    two52 <= mq < two53 /\ -117 <= eq /\
    (eq < -52 \/ (eq = -52 /\ mq = two52)).
Proof.
  intros HA HB HeA HeB Hle.
  unfold SFdiv, SFdiv_core_binary. cbn [xorb].
  assert (EdA : Zdigits2 (Z.pos mA) = 53).
  { apply Zdigits2_unique; [|lia].
    change (2 ^ (53 - 1)) with two52. change (2 ^ 53) with two53. lia. }
  assert (EdB : Zdigits2 (Z.pos mB) = 53).
  { apply Zdigits2_unique; [|lia].
    change (2 ^ (53 - 1)) with two52. change (2 ^ 53) with two53. lia. }
  rewrite EdA, EdB, fexp64_eq.
  assert (Ee : Z.min (fexp64 (53 + eA - (53 + eB))) (eA - eB) = eA - eB - 53)
    by (unfold fexp64; lia).
  rewrite Ee.
  replace (eA - eB - (eA - eB - 53)) with 53 by lia.
  rewrite Z.shiftl_mul_pow2 by lia. rewrite two53_eq.
  pose proof (Z_div_mod (Z.pos mA * two53) (Z.pos mB) ltac:(lia)) as Hdm.
  destruct (Z.div_eucl (Z.pos mA * two53) (Z.pos mB)) as [q r].
  destruct Hdm as [Eq Hr].
  assert (Hq : two52 <= q < 2 * two53) by (unfold two52, two53 in *; nia).
  set (e' := eA - eB - 53) in *.
  destruct (Z.lt_ge_cases q two53) as [Hsmall|Hbig].
  - (* 53 bits *)
    assert (Ed : Zdigits2 q = 53).
    { apply Zdigits2_unique; [|unfold two52 in *; lia].
      change (2 ^ (53 - 1)) with two52. change (2 ^ 53) with two53. lia. }
    destruct (bra_normal q e' (new_location (Z.pos mB) r) 53
                ltac:(unfold two52 in *; lia) Ed ltac:(lia) ltac:(lia) ltac:(lia))
      as (m2 & Hm1 & Hm2 & _ & Hres).
    change (53 - 53) with 0 in *. rewrite Z.pow_0_r, Z.div_1_r in *.
    rewrite Hres.
    destruct (Z.eqb_spec m2 two53) as [E|E].
    + exists two52, (e' + 0 + 1). split; [reflexivity|].
      split; [unfold two52, two53; lia|]. split; [lia|].
      destruct (Z.eq_dec (e' + 0 + 1) (-52)); [right; split; [assumption|reflexivity]|left; lia].
    + exists m2, (e' + 0). split; [reflexivity|].
      split; [lia|]. split; [lia|]. left. lia.
  - (* 54 bits *)
    assert (Ed : Zdigits2 q = 54).
    { apply Zdigits2_unique; [|unfold two52 in *; lia].
      change (2 ^ (54 - 1)) with two53. change (2 ^ 54) with (2 * two53). lia. }
    destruct (bra_normal q e' (new_location (Z.pos mB) r) 54
                ltac:(unfold two52 in *; lia) Ed ltac:(lia) ltac:(lia) ltac:(lia))
      as (m2 & Hm1 & Hm2 & _ & Hres).
    change (54 - 53) with 1 in *. rewrite Z.pow_1_r in *.
    rewrite Hres.
    destruct Hle as [Hlt|[Heq Hm]].
    + (* the exponent of the quotient is at most -54 *)
      destruct (Z.eqb_spec m2 two53) as [E|E].
      * exists two52, (e' + 1 + 1). split; [reflexivity|].
        split; [unfold two52, two53; lia|]. split; [lia|].
        destruct (Z.eq_dec (e' + 1 + 1) (-52)); [right; split; [assumption|reflexivity]|left; lia].
      * exists m2, (e' + 1). split; [reflexivity|].
        split; [lia|]. split; [lia|]. left. lia.
    + (* equal exponents: the quotient is exactly 2^53 *)
      assert (Eq53 : q = two53) by (unfold two52, two53 in *; nia).
      assert (Er : r = 0) by (unfold two52, two53 in *; nia).
      assert (Em2 : m2 = two52).
      { destruct Hm2 as [Hm2|[_ [Hm2|Hm2]]].
        - rewrite Hm2, Eq53. reflexivity.
        - exfalso. apply Hm2. apply new_location_exact. exact Er.
        - exfalso. apply Hm2. rewrite Eq53. reflexivity. }
      rewrite Em2. cbn [Z.eqb two52 two53 Pos.eqb].
      exists two52, (e' + 1). split; [reflexivity|].
      split; [unfold two52, two53; lia|]. split; [lia|]. right. split; [lia|reflexivity].
Qed.

(** ** The product by 100 *)

Lemma Prim2SF_100 : Prim2SF 100 = S754_finite false (Z.to_pos m100) (-46).
Proof. reflexivity. Qed.

Lemma SFmul_100_le (mq : positive) (eq : Z) :
  two52 <= Z.pos mq < two53 -> -117 <= eq ->
  eq < -52 \/ (eq = -52 /\ Z.pos mq = two52) ->
  exists m e,
    SFmul prec emax (S754_finite false mq eq)
      (S754_finite false (Z.to_pos m100) (-46))
    = S754_finite false (Z.to_pos m) e /\
    0 < m /\ (e < -46 \/ (e = -46 /\ m <= m100)).
Proof.
  intros Hq Heq Hle. cbn [SFmul xorb].
  change (Z.pos (mq * Z.to_pos m100)) with (Z.pos mq * m100).
  set (P := Z.pos mq * m100).
  assert (HP : 2 ^ 104 <= P < 2 ^ 106).
  { subst P. unfold two52, two53, m100 in *.
    change (2 ^ 104) with 20282409603651670423947251286016.
    change (2 ^ 106) with 81129638414606681695789005144064. lia. }
  destruct (Z.lt_ge_cases P (2 ^ 105)) as [Hsmall|Hbig].
  - (* 105 bits *)
    assert (Ed : Zdigits2 P = 105).
    { apply Zdigits2_unique; [|lia]. change (105 - 1) with 104. lia. }
    destruct (bra_normal P (eq + -46) loc_Exact 105
                ltac:(lia) Ed ltac:(lia) ltac:(lia) ltac:(lia))
      as (m2 & Hm1 & Hm2 & _ & Hres).
    change (105 - 53) with 52 in *.
    rewrite Hres.
    destruct Hle as [Hlt|[He Hm]].
    + destruct (Z.eqb_spec m2 two53) as [E|E].
      * exists two52, (eq + -46 + 52 + 1). split; [reflexivity|].
        split; [reflexivity|].
        destruct (Z.eq_dec (eq + -46 + 52 + 1) (-46));
          [right; split; [assumption|unfold two52, m100; lia]|left; lia].
      * exists m2, (eq + -46 + 52). split; [reflexivity|].
        split; [unfold two52 in *; lia|]. left. lia.
    + assert (EP : P = m100 * 2 ^ 52) by (subst P; rewrite Hm; reflexivity).
      assert (Em2 : m2 = m100).
      { destruct Hm2 as [Hm2|[_ [Hm2|Hm2]]].
        - rewrite Hm2, EP. apply Z.div_mul. lia.
        - exfalso. now apply Hm2.
        - exfalso. apply Hm2. rewrite EP. apply Z.mod_mul. lia. }
      rewrite Em2. cbn [Z.eqb m100 two53 Pos.eqb].
      exists m100, (eq + -46 + 52). split; [reflexivity|].
      split; [reflexivity|]. right. split; [lia|lia].
  - (* 106 bits *)
    assert (Ed : Zdigits2 P = 106).
    { apply Zdigits2_unique; [|lia]. change (106 - 1) with 105. lia. }
    destruct (bra_normal P (eq + -46) loc_Exact 106
                ltac:(lia) Ed ltac:(lia) ltac:(lia) ltac:(lia))
      as (m2 & Hm1 & Hm2 & _ & Hres).
    change (106 - 53) with 53 in *.
    rewrite Hres.
    assert (Heq' : eq <= -53).
    { destruct Hle as [|[_ Hm]]; [lia|]. exfalso.
      subst P. rewrite Hm in Hbig. revert Hbig. unfold two52, m100.
      change (2 ^ 105) with 40564819207303340847894502572032. lia. }
    assert (Hm1' : P / 2 ^ 53 < m100).
    { apply Z.div_lt_upper_bound; [lia|]. subst P.
      unfold two52, two53, m100 in *. change (2 ^ 53) with 9007199254740992. lia. }
    assert (Hm2' : two52 <= m2 <= m100) by lia.
    destruct (Z.eqb_spec m2 two53) as [E|E]; [unfold m100, two53 in *; lia|].
    exists m2, (eq + -46 + 53). split; [reflexivity|].
    split; [unfold two52 in *; lia|].
    destruct (Z.eq_dec (eq + -46 + 53) (-46)); [right; split; [assumption|lia]|left; lia].
Qed.

(** ** The success rate *)

Lemma Prim2SF_of_int (n : Z) :
  1 <= n < 2 ^ 63 ->
  Prim2SF (float64_of_int n)
  = S754_finite false (Z.to_pos (cvt_m n)) (cvt_e n).
Proof.
  intros Hn. unfold float64_of_int.
  destruct (cvt_eq n Hn) as [E Hm]. rewrite E.
  pose proof (cvt_e_range n Hn) as He.
  apply Prim2SF_SF2Prim.
  cbn [valid_binary]. unfold bounded, canonical_mantissa.
  rewrite fexp64_eq.
  assert (Ed : Z.pos (digits2_pos (Z.to_pos (cvt_m n))) = 53).
  { change (Z.pos (digits2_pos ?p)) with (Zdigits2 (Z.pos p)).
    rewrite Z2Pos.id by (unfold two52 in *; lia).
    apply Zdigits2_unique; [|unfold two52 in *; lia].
    change (2 ^ (53 - 1)) with two52. change (2 ^ 53) with two53. lia. }
  rewrite Ed.
  apply andb_true_iff. split.
  - apply Z.eqb_eq. unfold fexp64. lia.
  - apply Z.leb_le. cbn. lia.
Qed.

Lemma SFleb_finite_le (m1 m2 : positive) (e1 e2 : Z) :
  e1 < e2 \/ (e1 = e2 /\ Z.pos m1 <= Z.pos m2) ->
  SFleb (S754_finite false m1 e1) (S754_finite false m2 e2) = true.
Proof.
  intros H. unfold SFleb, SFcompare.
  destruct H as [H|[-> H]].
  - now rewrite (proj2 (Z.compare_lt_iff e1 e2) H).
  - rewrite Z.compare_refl.
    change (PosDef.Pos.compare_cont Eq m1 m2) with (Pos.compare m1 m2).
    destruct (Pos.compare_spec m1 m2); try reflexivity. lia.
Qed.

(** In binary64, float64(s) / float64(r) * 100 lies between 0 and 100
    for all 64-bit counters 0 <= s <= r with r positive: the conversion is
    monotone, so the quotient rounds to at most 1, and its product by 100
    rounds to at most 100. *)
Theorem success_rate_ieee (s r : Z) :
  0 <= s <= r -> 1 <= r < 2 ^ 63 ->
  let rate := (float64_of_int s / float64_of_int r * 100)%float in
  PrimFloat.leb 0 rate = true /\ PrimFloat.leb rate 100 = true.
Proof.
  intros Hs Hr. cbv zeta.
  rewrite !leb_spec, mul_spec, div_spec, (Prim2SF_of_int r Hr), Prim2SF_100.
  change (Prim2SF 0) with (S754_zero false).
  pose proof (cvt_eq r Hr) as [_ HmB].
  pose proof (cvt_e_range r Hr) as HeB.
  destruct (Z.eq_dec s 0) as [->|Hs0].
  - change (Prim2SF (float64_of_int 0)) with (S754_zero false).
    cbn. split; reflexivity.
  - assert (Hs1 : 1 <= s < 2 ^ 63) by lia.
    rewrite (Prim2SF_of_int s Hs1).
    pose proof (cvt_eq s Hs1) as [_ HmA].
    pose proof (cvt_e_range s Hs1) as HeA.
    pose proof (cvt_mono s r ltac:(lia) ltac:(lia)) as Hmono.
    destruct (SFdiv_le_one (Z.to_pos (cvt_m s)) (Z.to_pos (cvt_m r))
                (cvt_e s) (cvt_e r)) as (mq & eq & EQ & Hmq & Heq & Hq1).
    + rewrite Z2Pos.id by (unfold two52 in *; lia). exact HmA.
    + rewrite Z2Pos.id by (unfold two52 in *; lia). exact HmB.
    + exact HeA.
    + exact HeB.
    + rewrite !Z2Pos.id by (unfold two52 in *; lia). exact Hmono.
    + unfold SF64mul, SF64div. rewrite EQ.
      destruct (SFmul_100_le (Z.to_pos mq) eq) as (m & e & ER & Hm0 & Hle).
      * rewrite Z2Pos.id by (unfold two52 in *; lia). exact Hmq.
      * exact Heq.
      * rewrite Z2Pos.id by (unfold two52 in *; lia). exact Hq1.
      * rewrite ER. split; [reflexivity|].
        apply SFleb_finite_le.
        rewrite Z2Pos.id by lia. exact Hle.
Qed.

(** ** The metrics registry *)

Module MetricsProofs.

Import MetricsGo.

Lemma requests_split (cs : list Call) :
  requests cs = (successes cs + failures cs)%nat.
Proof.
  unfold requests, successes, failures.
  induction cs as [|c cs IH]; simpl; [reflexivity|].
  destruct c as [[|] ?| | | | |]; simpl; lia.
Qed.

Lemma requests_app (cs1 cs2 : list Call) :
  requests (cs1 ++ cs2) = (requests cs1 + requests cs2)%nat.
Proof. unfold requests. now rewrite filter_app, length_app. Qed.

Lemma successes_app (cs1 cs2 : list Call) :
  successes (cs1 ++ cs2) = (successes cs1 + successes cs2)%nat.
Proof. unfold successes. now rewrite filter_app, length_app. Qed.

Lemma failures_app (cs1 cs2 : list Call) :
  failures (cs1 ++ cs2) = (failures cs1 + failures cs2)%nat.
Proof. unfold failures. now rewrite filter_app, length_app. Qed.

Lemma run_calls_app (m : Metrics) (cs1 cs2 : list Call) :
  run_calls m (cs1 ++ cs2) = run_calls (run_calls m cs1) cs2.
Proof. unfold run_calls. apply fold_left_app. Qed.

Lemma counted_step (n s : nat) (m : Metrics) (c : Call) :
  counted n s m ->
  Z.of_nat (n + requests [c]) <= int64_max ->
  counted (n + requests [c]) (s + successes [c]) (apply_call m c).
Proof.
  unfold counted, int64_max. intros (Hr & Hs & He & Hle) Hmax.
  destruct c as [[|] ms|now ty msg| | | |]; cbn in *;
    unfold DecActiveConnections, DecCurrentCalls;
    repeat match goal with |- context [if ?b then _ else _] => destruct b end;
    cbn; rewrite ?Nat.add_0_r; try (repeat split; (assumption || lia)).
  - rewrite Hr, Hs, He. rewrite !wrap64_small by (unfold in_int64, int64_min, int64_max; lia).
    repeat split; lia.
  - rewrite Hr, Hs, He. rewrite !wrap64_small by (unfold in_int64, int64_min, int64_max; lia).
    repeat split; lia.
Qed.

Lemma counted_run (cs : list Call) (n s : nat) (m : Metrics) :
  counted n s m ->
  Z.of_nat (n + requests cs) <= int64_max ->
  counted (n + requests cs) (s + successes cs) (run_calls m cs).
Proof.
  revert n s m. induction cs as [|c cs IH]; intros n s m Hm Hmax.
  - cbn. now rewrite !Nat.add_0_r.
  - change (c :: cs) with ([c] ++ cs) in *.
    rewrite requests_app, successes_app, run_calls_app, !Nat.add_assoc in *.
    apply IH; [|assumption].
    apply counted_step; [assumption|lia].
Qed.

Lemma counted_init : counted 0 0 initMetrics.
Proof. repeat split; reflexivity || lia. Qed.

(** Every state the registry reaches from [initMetrics] counts the calls
    made, as long as the 64-bit counters have not overflowed. *)
Lemma reachable_counted (cs : list Call) :
  Z.of_nat (requests cs) <= int64_max ->
  counted (requests cs) (successes cs) (run_calls initMetrics cs).
Proof. intros H. apply (counted_run cs 0 0 initMetrics counted_init H). Qed.

(** The success rate of a registry whose counters are in range. *)
Lemma rate_bounds (m : Metrics) :
  0 <= successCount m <= requestCount m ->
  requestCount m <= int64_max ->
  PrimFloat.leb 0 (GetSuccessRate m) = true /\
  PrimFloat.leb (GetSuccessRate m) 100 = true.
Proof.
  intros Hs Hmax. unfold GetSuccessRate.
  destruct (requestCount m =? 0) eqn:E.
  - split; reflexivity.
  - apply Z.eqb_neq in E.
    apply success_rate_ieee; [exact Hs|].
    unfold int64_max in Hmax. lia.
Qed.

End MetricsProofs.

Module MetricsClaims.

Import MetricsGo MetricsProofs.

Lemma last100_snoc {A : Type} (l : list A) (x : A) :
  (let appended := last100 l ++ [x] in
   if (100 <? List.length appended)%nat
   then slice_from (List.length appended - 100) appended
   else appended) = last100 (l ++ [x]).
Proof.
  unfold last100, slice_from. cbv zeta.
  rewrite !length_app, length_skipn. cbn [List.length].
  destruct (Nat.ltb_spec 100 (List.length l - (List.length l - 100) + 1)) as [H|H].
  - rewrite skipn_app, skipn_skipn, length_skipn.
    replace (List.length l - (List.length l - 100) + 1 - 100
             - (List.length l - (List.length l - 100)))%nat with 0%nat by lia.
    rewrite skipn_app.
    replace (List.length l + 1 - 100 - List.length l)%nat with 0%nat by lia.
    do 2 f_equal. lia.
  - replace (List.length l - 100)%nat with 0%nat by lia.
    replace (List.length l + 1 - 100)%nat with 0%nat by lia.
    reflexivity.
Qed.

Lemma errors_step (m : Metrics) (c : Call) (rs : list ErrorRecord) :
  errors m = last100 rs ->
  errors (apply_call m c) = last100 (rs ++ recorded [c]).
Proof.
  intros H.
  destruct c; cbn [apply_call recorded]; rewrite ?app_nil_r;
    try (unfold IncActiveConnections, DecActiveConnections, IncCurrentCalls,
           DecCurrentCalls;
         repeat match goal with |- context [if ?b then _ else _] => destruct b end;
         exact H).
  unfold RecordError. cbn [errors]. rewrite H. apply last100_snoc.
Qed.

Lemma recorded_app (cs1 cs2 : list Call) :
  recorded (cs1 ++ cs2) = recorded cs1 ++ recorded cs2.
Proof.
  induction cs1 as [|c cs1 IH]; [reflexivity|].
  destruct c; cbn; rewrite IH; reflexivity.
Qed.

Lemma errors_run (cs : list Call) (m : Metrics) (rs : list ErrorRecord) :
  errors m = last100 rs ->
  errors (run_calls m cs) = last100 (rs ++ recorded cs).
Proof.
  revert m rs. induction cs as [|c cs IH]; intros m rs H.
  - cbn. now rewrite app_nil_r.
  - change (c :: cs) with ([c] ++ cs).
    rewrite run_calls_app, recorded_app, app_assoc.
    apply IH. cbn [run_calls fold_left]. now apply errors_step.
Qed.

(** C8. After any sequence of calls on the registry created by
    [initMetrics], the error log holds the records of the [RecordError]
    calls made, the oldest dropped first so that at most 100 remain, in
    their arrival order; after 105 [RecordError] calls it holds exactly
    the last 100 of them (the first five are gone). *)
Theorem error_log_keeps_last_100 (cs : list Call) :
  let log := errors (run_calls initMetrics cs) in
  let arrived := recorded cs in
  log = skipn (List.length arrived - 100) arrived /\
  (List.length log <= 100)%nat /\
  List.length log = Nat.min 100 (List.length arrived) /\
  (List.length arrived = 105%nat ->
   log = skipn 5 arrived /\ List.length log = 100%nat).
Proof.
  cbv zeta.
  assert (E : errors (run_calls initMetrics cs) = last100 (recorded cs)).
  { apply (errors_run cs initMetrics []). reflexivity. }
  rewrite E. unfold last100. rewrite length_skipn.
  split; [reflexivity|]. split; [lia|]. split; [lia|].
  intros H. rewrite H. split; [reflexivity | lia].
Qed.

(** C7. [RecordRequest] adds one to [requestCount] and the elapsed time to
    [totalResponseTime] whatever the outcome, and one to exactly one of
    [successCount] and [errorCount]; [GetSuccessRate] is
    successCount / requestCount * 100 in binary64 (100 when there is no
    request) and [GetAvgResponseTime] the truncated quotient
    totalResponseTime / requestCount (0 when there is no request); a
    success of 100 ms then a failure of 200 ms give 2 requests, a rate of
    50 and an average of 150. *)
Theorem record_request_and_getters (m : Metrics) (success : bool)
    (elapsedMs : Z) :
  in_int64 (requestCount m + 1) ->
  in_int64 (successCount m + 1) ->
  in_int64 (errorCount m + 1) ->
  in_int64 (totalResponseTime m + elapsedMs) ->
  in_int64 (Z.quot (totalResponseTime m) (requestCount m)) ->
  let m' := RecordRequest m success elapsedMs in
  (requestCount m' = requestCount m + 1 /\
   totalResponseTime m' = totalResponseTime m + elapsedMs /\
   successCount m' = successCount m + (if success then 1 else 0) /\
   errorCount m' = errorCount m + (if success then 0 else 1) /\
   activeConnections m' = activeConnections m /\
   currentCalls m' = currentCalls m /\
   errors m' = errors m) /\
  (GetSuccessRate m =
     if requestCount m =? 0 then 100%float
     else (float64_of_int (successCount m) / float64_of_int (requestCount m)
           * 100)%float) /\
  (GetAvgResponseTime m =
     if requestCount m =? 0 then 0
     else Z.quot (totalResponseTime m) (requestCount m)) /\
  (let m2 := RecordRequest (RecordRequest initMetrics true 100) false 200 in
   GetRequestCount m2 = 2 /\
   GetSuccessRate m2 = 50%float /\
   GetAvgResponseTime m2 = 150).
Proof.
  intros Hr Hs He Ht Hq. cbv zeta.
  split; [|split; [|split]].
  - unfold RecordRequest. cbn.
    rewrite (wrap64_small _ Hr), (wrap64_small _ Ht).
    destruct success; rewrite ?(wrap64_small _ Hs), ?(wrap64_small _ He);
      repeat split; lia.
  - unfold GetSuccessRate. destruct (requestCount m =? 0); reflexivity.
  - unfold GetAvgResponseTime. destruct (requestCount m =? 0);
      [reflexivity | apply (wrap64_small _ Hq)].
  - repeat split; vm_compute; reflexivity.
Qed.

Lemma record_request_and_getters_witness :
  let m := RecordRequest initMetrics true 100 in
  requestCount (RecordRequest m false 200) = requestCount m + 1 /\
  GetSuccessRate m = (float64_of_int 1 / float64_of_int 1 * 100)%float /\
  GetAvgResponseTime m = Z.quot 100 1.
Proof.
  cbv zeta.
  pose proof (record_request_and_getters
                (RecordRequest initMetrics true 100) false 200
                ltac:(vm_compute; split; discriminate)
                ltac:(vm_compute; split; discriminate)
                ltac:(vm_compute; split; discriminate)
                ltac:(vm_compute; split; discriminate)
                ltac:(vm_compute; split; discriminate)) as H.
  cbv zeta in H.
  destruct H as ((H1 & _) & H2 & H3 & _).
  exact (conj H1 (conj H2 H3)).
Defined.

Lemma error_log_keeps_last_100_witness :
  let cs := map (fun i => CallRecordError "t" "kind" (String (Ascii.ascii_of_nat i)
                   EmptyString)) (seq 0 105) in
  errors (run_calls initMetrics cs) = skipn 5 (recorded cs) /\
  List.length (errors (run_calls initMetrics cs)) = 100%nat.
Proof.
  cbv zeta.
  exact (proj2 (proj2 (proj2 (error_log_keeps_last_100
    (map (fun i => CallRecordError "t" "kind" (String (Ascii.ascii_of_nat i)
            EmptyString)) (seq 0 105)))))
    ltac:(vm_compute; reflexivity)).
Defined.

(** C10. From [initMetrics], as long as fewer than 2^63 requests have
    been recorded (the counters are 64-bit), every state reached by calls
    on the registry has requestCount = successCount + errorCount with the
    three counters non-negative; the counters never decrease from a state
    to a later one; and the success rate, computed in binary64, lies
    between 0 and 100. *)
Theorem counters_invariant (cs1 cs2 : list Call) :
  Z.of_nat (requests (cs1 ++ cs2)) <= int64_max ->
  let m1 := run_calls initMetrics cs1 in
  let m2 := run_calls initMetrics (cs1 ++ cs2) in
  requestCount m2 = successCount m2 + errorCount m2 /\
  0 <= requestCount m2 /\ 0 <= successCount m2 /\ 0 <= errorCount m2 /\
  requestCount m1 <= requestCount m2 /\
  successCount m1 <= successCount m2 /\
  errorCount m1 <= errorCount m2 /\
  PrimFloat.leb 0 (GetSuccessRate m2) = true /\
  PrimFloat.leb (GetSuccessRate m2) 100 = true.
Proof.
  intros Hmax. cbv zeta.
  assert (Hmax1 : Z.of_nat (requests cs1) <= int64_max).
  { rewrite requests_app in Hmax. lia. }
  destruct (reachable_counted _ Hmax) as (Hr2 & Hs2 & He2 & Hle2).
  destruct (reachable_counted _ Hmax1) as (Hr1 & Hs1 & He1 & Hle1).
  pose proof (requests_split cs1) as Sp1.
  pose proof (requests_split (cs1 ++ cs2)) as Sp2.
  rewrite requests_app in *. rewrite successes_app in *.
  rewrite failures_app in Sp2.
  assert (Hrate : 0 <= successCount (run_calls initMetrics (cs1 ++ cs2))
                  <= requestCount (run_calls initMetrics (cs1 ++ cs2))) by lia.
  assert (Hbound : requestCount (run_calls initMetrics (cs1 ++ cs2))
                   <= int64_max) by lia.
  split; [lia|]. split; [lia|]. split; [lia|]. split; [lia|].
  split; [lia|]. split; [lia|]. split; [lia|].
  exact (rate_bounds _ Hrate Hbound).
Qed.

Lemma counters_invariant_witness :
  let m2 := RecordRequest (RecordRequest initMetrics true 100) false 200 in
  requestCount m2 = successCount m2 + errorCount m2 /\
  PrimFloat.leb 0 (GetSuccessRate m2) = true /\
  PrimFloat.leb (GetSuccessRate m2) 100 = true.
Proof.
  cbv zeta.
  pose proof (counters_invariant
                [CallRecordRequest true 100] [CallRecordRequest false 200]
                ltac:(vm_compute; discriminate)) as H.
  cbv zeta in H.
  destruct H as (H1 & _ & _ & _ & _ & _ & _ & H2).
  exact (conj H1 H2).
Defined.

(** The binary64 rate itself, on a registry with one success in three
    requests. *)
Example success_rate_one_third :
  let m := run_calls initMetrics
             [CallRecordRequest true 10; CallRecordRequest false 10;
              CallRecordRequest false 10] in
  GetSuccessRate m = 0x1.0aaaaaaaaaaaap+5%float /\
  PrimFloat.leb 0 (GetSuccessRate m) = true /\
  PrimFloat.leb (GetSuccessRate m) 100 = true.
Proof. vm_compute. repeat split. Qed.

(** The binary64 rate at the largest counters: 2^63 - 2 successes in
    2^63 - 1 requests both convert to 2^63, and the rate is 100. *)
Example success_rate_largest :
  let m := {| requestCount := int64_max; successCount := int64_max - 1;
              errorCount := 1; activeConnections := 0; currentCalls := 0;
              totalResponseTime := 0; errors := [] |} in
  GetSuccessRate m = 100%float.
Proof. vm_compute. reflexivity. Qed.

End MetricsClaims.

(** ** Bytes and big-endian words *)

Lemma byte_val_range (b : byte) : 0 <= byte_val b < 256.
Proof.
  unfold byte_val. pose proof (Byte.to_N_bounded b). lia.
Qed.

Lemma byte_val_of (z : Z) : byte_val (byte_of z) = z mod 256.
Proof.
  pose proof (Z.mod_pos_bound z 256 ltac:(lia)) as Hb.
  unfold byte_val, byte_of.
  destruct (Byte.of_N (Z.to_N (z mod 256))) as [b|] eqn:E.
  - apply Byte.to_of_N in E. rewrite E. lia.
  - apply Byte.of_N_None_iff in E. lia.
Qed.

Lemma low_nibble_range (z : Z) : 0 <= Z.land z 0x0f <= 15.
Proof.
  pose proof (Z.land_ones z 4 ltac:(lia)) as E.
  change (Z.ones 4) with 15 in E. change (2 ^ 4) with 16 in E. rewrite E.
  pose proof (Z.mod_pos_bound z 16 ltac:(lia)). lia.
Qed.

Lemma lor_mul_pow2_add (hi lo k : Z) :
  0 <= k -> 0 <= lo < 2 ^ k ->
  Z.lor (hi * 2 ^ k) lo = hi * 2 ^ k + lo.
Proof.
  intros Hk Hlo.
  assert (Hdisj : Z.land (hi * 2 ^ k) lo = 0).
  { apply Z.bits_inj'. intros n Hn.
    rewrite Z.land_spec, Z.bits_0.
    destruct (Z.lt_ge_cases n k) as [Hlt|Hge].
    - rewrite Z.mul_pow2_bits_low by assumption. reflexivity.
    - rewrite <- (Z.mod_small lo (2 ^ k)) by assumption.
      rewrite Z.mod_pow2_bits_high by lia. apply andb_false_r. }
  rewrite <- Z.lxor_lor by assumption.
  now rewrite <- Z.add_nocarry_lxor by assumption.
Qed.

(** The big-endian value of four bytes. *)
Lemma BigEndian_Uint32_value (b0 b1 b2 b3 : byte) :
  BigEndian_Uint32 [b0; b1; b2; b3] =
  byte_val b0 * 2 ^ 24 + byte_val b1 * 2 ^ 16 + byte_val b2 * 2 ^ 8
  + byte_val b3.
Proof.
  unfold BigEndian_Uint32, index. cbn [nth].
  pose proof (byte_val_range b0). pose proof (byte_val_range b1).
  pose proof (byte_val_range b2). pose proof (byte_val_range b3).
  rewrite !Z.shiftl_mul_pow2 by lia.
  rewrite (lor_mul_pow2_add _ _ 24) by lia.
  replace (byte_val b0 * 2 ^ 24 + byte_val b1 * 2 ^ 16)
    with ((byte_val b0 * 2 ^ 8 + byte_val b1) * 2 ^ 16) by lia.
  rewrite (lor_mul_pow2_add _ _ 16) by lia.
  replace ((byte_val b0 * 2 ^ 8 + byte_val b1) * 2 ^ 16 + byte_val b2 * 2 ^ 8)
    with (((byte_val b0 * 2 ^ 8 + byte_val b1) * 2 ^ 8 + byte_val b2) * 2 ^ 8)
    by lia.
  rewrite (lor_mul_pow2_add _ _ 8) by lia.
  lia.
Qed.

(** Reading back the four bytes written for a 32-bit value. *)
Lemma BigEndian_Uint32_PutUint32 (v : Z) :
  0 <= v < 2 ^ 32 -> BigEndian_Uint32 (BigEndian_PutUint32 v) = v.
Proof.
  intros Hv. unfold BigEndian_PutUint32.
  rewrite BigEndian_Uint32_value, !byte_val_of, !Z.shiftr_div_pow2 by lia.
  change (2 ^ 24) with 16777216. change (2 ^ 16) with 65536.
  change (2 ^ 8) with 256. change (2 ^ 32) with 4294967296 in Hv.
  Z.div_mod_to_equations. lia.
Qed.

(** ** The frame codec *)

Module CodecProofs.

Import MetricsGo MainGo.

Section Codec.

Context {L : Libraries}.

Lemma header_size_bytes (res : list byte) :
  uint8 (Z.land (index res 0) 0x0f * 4) = 4 * Z.land (index res 0) 0x0f.
Proof.
  pose proof (low_nibble_range (index res 0)).
  unfold uint8. change (2 ^ 8) with 256. rewrite Z.mod_small; lia.
Qed.

Lemma parse_too_short (res : list byte) :
  (List.length res < 4)%nat ->
  parseByteDanceResponse res = (zeroSynthResp, Some TooShort).
Proof.
  intros H. unfold parseByteDanceResponse.
  now rewrite (proj2 (Nat.ltb_lt _ _) H).
Qed.

Lemma parse_header_exceeds (res : list byte) :
  (4 <= List.length res)%nat ->
  Z.of_nat (List.length res) < 4 * Z.land (index res 0) 0x0f ->
  parseByteDanceResponse res = (zeroSynthResp, Some HeaderExceedsData).
Proof.
  intros H4 H. unfold parseByteDanceResponse.
  rewrite (proj2 (Nat.ltb_ge _ _) H4), header_size_bytes.
  now rewrite (proj2 (Z.ltb_lt _ _) H).
Qed.

Lemma parse_dispatch (res : list byte) :
  (4 <= List.length res)%nat ->
  4 * Z.land (index res 0) 0x0f <= Z.of_nat (List.length res) ->
  parseByteDanceResponse res =
  dispatchMessage (Z.shiftr (index res 1) 4) (Z.land (index res 1) 0x0f)
    (Z.land (index res 2) 0x0f)
    (skipn (Z.to_nat (4 * Z.land (index res 0) 0x0f)) res).
Proof.
  intros H4 H. unfold parseByteDanceResponse.
  rewrite (proj2 (Nat.ltb_ge _ _) H4), header_size_bytes.
  now rewrite (proj2 (Z.ltb_ge _ _) H).
Qed.

Lemma dispatch_audio_ack (compression : Z) (payload : list byte) :
  dispatchMessage 0xb 0 compression payload =
  ({| Audio := []; IsLast := false |}, None).
Proof. reflexivity. Qed.

Lemma dispatch_audio_short (flags compression : Z) (payload : list byte) :
  flags <> 0 -> (List.length payload < 8)%nat ->
  dispatchMessage 0xb flags compression payload =
  (zeroSynthResp, Some AudioInsufficient).
Proof.
  intros Hf Hl. unfold dispatchMessage. cbn [Z.eqb Pos.eqb].
  rewrite (proj2 (Z.eqb_neq _ _) Hf).
  now rewrite (proj2 (Nat.ltb_lt _ _) Hl).
Qed.

Lemma dispatch_audio_data (flags compression : Z) (payload : list byte) :
  flags <> 0 -> (8 <= List.length payload)%nat ->
  dispatchMessage 0xb flags compression payload =
  ({| Audio := skipn 8 payload;
      IsLast := int32 (BigEndian_Uint32 (firstn 4 payload)) <? 0 |}, None).
Proof.
  intros Hf Hl. unfold dispatchMessage. cbn [Z.eqb Pos.eqb].
  rewrite (proj2 (Z.eqb_neq _ _) Hf).
  rewrite (proj2 (Nat.ltb_ge _ _) Hl).
  cbn [Audio IsLast zeroSynthResp app]. unfold bytes_from.
  now destruct (int32 (BigEndian_Uint32 (firstn 4 payload)) <? 0).
Qed.

Lemma parse_audioFrame (sequenceNumber : Z) (audioBytes : list byte) :
  - 2 ^ 31 <= sequenceNumber < 2 ^ 31 ->
  parseByteDanceResponse (audioFrame sequenceNumber audioBytes) =
  ({| Audio := audioBytes; IsLast := sequenceNumber <? 0 |}, None).
Proof.
  intros Hs.
  rewrite parse_dispatch.
  - change (Z.to_nat (4 * Z.land (index (audioFrame sequenceNumber audioBytes) 0) 0x0f))
      with 4%nat.
    change (Z.shiftr (index (audioFrame sequenceNumber audioBytes) 1) 4) with 0xb.
    change (Z.land (index (audioFrame sequenceNumber audioBytes) 1) 0x0f) with 1.
    unfold audioFrame. cbn [skipn app].
    rewrite dispatch_audio_data; [|discriminate|cbn; lia].
    cbn [skipn firstn BigEndian_PutUint32 app].
    change (firstn 0 _) with (@nil byte).
    fold (BigEndian_PutUint32 (uint32 sequenceNumber)).
    rewrite BigEndian_Uint32_PutUint32
      by (unfold uint32; apply Z.mod_pos_bound; lia).
    do 2 f_equal. f_equal.
    unfold int32, uint32. change (2 ^ 32) with 4294967296.
    change (2 ^ 31) with 2147483648 in *.
    Z.div_mod_to_equations. lia.
  - unfold audioFrame. cbn. lia.
  - change (4 * Z.land (index (audioFrame sequenceNumber audioBytes) 0) 0x0f)
      with 4.
    unfold audioFrame. cbn [app List.length]. lia.
Qed.

End Codec.

End CodecProofs.

Module CodecClaims.

Import MetricsGo MainGo CodecProofs.

(** C6. [parseByteDanceResponse] fails with an invalid-response error on
    a frame of fewer than 4 bytes, and on a frame shorter than the header
    size it declares (4 times the low nibble of byte 0); otherwise it
    dispatches on the header fields with, as payload, the bytes after the
    declared header size. *)
Theorem header_validation {L : Libraries} (res : list byte) :
  let headerBytes := 4 * Z.land (index res 0) 0x0f in
  ((List.length res < 4)%nat ->
   parseByteDanceResponse res = (zeroSynthResp, Some TooShort)) /\
  ((4 <= List.length res)%nat ->
   Z.of_nat (List.length res) < headerBytes ->
   parseByteDanceResponse res = (zeroSynthResp, Some HeaderExceedsData)) /\
  ((4 <= List.length res)%nat ->
   headerBytes <= Z.of_nat (List.length res) ->
   parseByteDanceResponse res =
   dispatchMessage (Z.shiftr (index res 1) 4) (Z.land (index res 1) 0x0f)
     (Z.land (index res 2) 0x0f) (skipn (Z.to_nat headerBytes) res)).
Proof.
  cbv zeta. split; [|split].
  - apply parse_too_short.
  - apply parse_header_exceeds.
  - apply parse_dispatch.
Qed.

(** C2. On a frame with a valid header and message type 0xB: with flags 0
    the result is the empty acknowledgment (no audio, not last); with
    other flags a payload under 8 bytes is an error, and otherwise the
    sequence number is the big-endian int32 of payload[0:4], the audio is
    payload[8:], and [IsLast] holds exactly when the sequence number is
    negative.  A frame with flags 1, sequence number 5 and audio X decodes
    to X, not last; with sequence number -1 it is last. *)
Theorem audio_frame_decoding {L : Libraries} (res : list byte) :
  (4 <= List.length res)%nat ->
  4 * Z.land (index res 0) 0x0f <= Z.of_nat (List.length res) ->
  Z.shiftr (index res 1) 4 = 0xb ->
  let flags := Z.land (index res 1) 0x0f in
  let payload := skipn (Z.to_nat (4 * Z.land (index res 0) 0x0f)) res in
  let sequenceNumber := int32 (BigEndian_Uint32 (firstn 4 payload)) in
  (flags = 0 ->
   parseByteDanceResponse res = ({| Audio := []; IsLast := false |}, None)) /\
  (flags <> 0 -> (List.length payload < 8)%nat ->
   parseByteDanceResponse res = (zeroSynthResp, Some AudioInsufficient)) /\
  (flags <> 0 -> (8 <= List.length payload)%nat ->
   parseByteDanceResponse res =
   ({| Audio := skipn 8 payload; IsLast := sequenceNumber <? 0 |}, None)) /\
  (forall X : list byte,
   parseByteDanceResponse (audioFrame 5 X) =
     ({| Audio := X; IsLast := false |}, None) /\
   parseByteDanceResponse (audioFrame (-1) X) =
     ({| Audio := X; IsLast := true |}, None)).
Proof.
  intros H4 Hh Ht. cbv zeta.
  rewrite (parse_dispatch res H4 Hh), Ht.
  split; [|split; [|split]].
  - intros ->. apply dispatch_audio_ack.
  - apply dispatch_audio_short.
  - apply dispatch_audio_data.
  - intros X. split.
    + apply (parse_audioFrame 5 X). lia.
    + apply (parse_audioFrame (-1) X). lia.
Qed.

Lemma header_validation_witness :
  @parseByteDanceResponse sample_libraries
    [Byte.x11; Byte.xb0; Byte.x10; Byte.x00; Byte.x41] =
  @dispatchMessage sample_libraries 0xb 0 0 [Byte.x41].
Proof.
  exact (proj2 (proj2 (@header_validation sample_libraries
           [Byte.x11; Byte.xb0; Byte.x10; Byte.x00; Byte.x41]))
         ltac:(vm_compute; lia) ltac:(vm_compute; discriminate)).
Defined.

Lemma audio_frame_decoding_witness :
  @parseByteDanceResponse sample_libraries (audioFrame 5 [Byte.x41; Byte.x42]) =
  ({| Audio := [Byte.x41; Byte.x42]; IsLast := false |}, None).
Proof.
  exact (proj1 (proj2 (proj2 (@audio_frame_decoding sample_libraries
           (audioFrame 5 [Byte.x41; Byte.x42])
           ltac:(vm_compute; lia) ltac:(vm_compute; discriminate)
           ltac:(vm_compute; reflexivity))))
         ltac:(vm_compute; discriminate) ltac:(vm_compute; lia)).
Defined.

End CodecClaims.

(** ** The upstream relay *)

Module RelayProofs.

Import MetricsGo MainGo CodecProofs.

Section Relay.

Context {L : Libraries}.

Lemma setup_too_long (appConfig : Config) (reqID text opt : string)
    (speed : float) :
  MaxTextLength appConfig < Z.of_nat (String.length text) ->
  setupByteDanceInput appConfig reqID text opt speed =
  inr (ErrTextTooLong (Z.of_nat (String.length text)) (MaxTextLength appConfig)).
Proof.
  intros H. unfold setupByteDanceInput.
  now rewrite (proj2 (Z.ltb_lt _ _) H).
Qed.

Lemma setup_passes (appConfig : Config) (reqID text opt : string)
    (speed : float) :
  Z.of_nat (String.length text) <= MaxTextLength appConfig ->
  setupByteDanceInput appConfig reqID text opt speed =
  match json_Marshal (requestParams appConfig reqID text opt speed) with
  | None => inr ErrMarshalFailed
  | Some resStr => inl resStr
  end.
Proof.
  intros H. unfold setupByteDanceInput.
  now rewrite (proj2 (Z.ltb_ge _ _) H).
Qed.

Lemma acquire_admits (appConfig : Config) (g : Globals) :
  Z.of_nat (semaphore g) < MaxConcurrentCalls appConfig ->
  acquire appConfig g =
  inl {| semaphore := S (semaphore g);
         GlobalMetrics := IncCurrentCalls (GlobalMetrics g) |}.
Proof.
  intros H. unfold acquire, trySend.
  now rewrite (proj2 (Z.ltb_lt _ _) H).
Qed.

Lemma acquire_refuses (appConfig : Config) (g : Globals) :
  MaxConcurrentCalls appConfig <= Z.of_nat (semaphore g) ->
  acquire appConfig g =
  inr (ErrTooManyConnections (MaxConcurrentCalls appConfig)).
Proof.
  intros H. unfold acquire, trySend.
  now rewrite (proj2 (Z.ltb_ge _ _) H).
Qed.

(** A failed read ends the loop: with the partial audio when some audio
    has been accumulated and the error is a close error whose code is
    neither 1001 nor 1006, with the read error otherwise. *)
Lemma receiveLoop_read_fails (err : ReadError) (rs : list ReadResult)
    (audio : list byte) :
  receiveLoop (ReadFails err :: rs) audio =
  (match audio, err with
   | _ :: _, CloseError code _ =>
       if (code =? 1001) || (code =? 1006)
       then Some (Fails (ErrMessageReadFailed err))
       else Some (Returns audio)
   | _, _ => Some (Fails (ErrMessageReadFailed err))
   end, [NetReadMessage]).
Proof.
  cbn [receiveLoop]. destruct audio as [|b audio]; [reflexivity|].
  destruct err as [code text|msg]; [|reflexivity].
  cbn [List.length Nat.ltb Nat.leb andb IsUnexpectedCloseError existsb].
  unfold CloseGoingAway, CloseAbnormalClosure.
  rewrite orb_false_r.
  now destruct ((code =? 1001) || (code =? 1006)).
Qed.

Lemma receiveLoop_no_audio (err : ReadError) (rs : list ReadResult) :
  receiveLoop (ReadFails err :: rs) [] =
  (Some (Fails (ErrMessageReadFailed err)), [NetReadMessage]).
Proof. reflexivity. Qed.

End Relay.

End RelayProofs.

Module RelayClaims.

Import MetricsGo MainGo CodecProofs RelayProofs.

(** C3. For a text that passes the length check (the call admitted, the
    parameters marshalled, the dial successful), the message
    [streamSynthesize] writes is the header 0x11 0x10 0x11 0x00 (version
    1, header size 1 word, message type 1, flags 0, serialization 1,
    compression 1, reserved 0), then the length of the gzip-compressed
    JSON as four big-endian bytes, then the compressed JSON. *)
Theorem request_frame_layout {L : Libraries} (appConfig : Config)
    (up : Upstream) (reqID : string) (g : Globals)
    (text voiceType : string) (speed : float) (json : list byte) :
  Z.of_nat (String.length text) <= MaxTextLength appConfig ->
  Z.of_nat (semaphore g) < MaxConcurrentCalls appConfig ->
  json_Marshal (requestParams appConfig reqID text optSubmit speed)
    = Some json ->
  dial_fails up = false ->
  let body := gzipCompress json in
  let n := Z.of_nat (List.length body) in
  let frame :=
    [Byte.x11; Byte.x10; Byte.x11; Byte.x00]
    ++ BigEndian_PutUint32 (uint32 n) ++ body in
  (exists ops,
     snd (fst (streamSynthesize appConfig up reqID g text voiceType speed))
     = NetDial :: NetWriteMessage frame :: ops) /\
  (n < 2 ^ 32 -> BigEndian_Uint32 (firstn 4 (skipn 4 frame)) = n) /\
  skipn 8 frame = body /\
  Z.shiftr (index frame 0) 4 = 1 /\ Z.land (index frame 0) 0x0f = 1 /\
  Z.shiftr (index frame 1) 4 = 1 /\ Z.land (index frame 1) 0x0f = 0 /\
  Z.shiftr (index frame 2) 4 = 1 /\ Z.land (index frame 2) 0x0f = 1 /\
  index frame 3 = 0.
Proof.
  intros Hlen Hsem Hjson Hdial. cbv zeta.
  split; [|split; [|repeat split]].
  - unfold streamSynthesize. rewrite (acquire_admits _ _ Hsem).
    unfold synthesizeAdmitted.
    rewrite (setup_passes _ _ _ _ _ Hlen), Hjson, Hdial.
    unfold clientRequest, defaultHeader. rewrite <- app_assoc.
    destruct (write_fails up).
    + eexists. reflexivity.
    + destruct (receiveLoop (reads up) []) as [r ops]. eexists. reflexivity.
  - intros Hn. cbn [app skipn BigEndian_PutUint32 firstn].
    fold (BigEndian_PutUint32 (uint32 (Z.of_nat (List.length (gzipCompress json))))).
    assert (E : uint32 (Z.of_nat (List.length (gzipCompress json)))
                = Z.of_nat (List.length (gzipCompress json))).
    { unfold uint32. apply Z.mod_small. lia. }
    rewrite E. apply BigEndian_Uint32_PutUint32. lia.
Qed.

Lemma request_frame_layout_witness :
  exists ops,
    snd (fst (@streamSynthesize sample_libraries sample_config
                {| dial_fails := false; write_fails := false; reads := [] |}
                "id"%string (sample_globals 0) "hello"%string "alloy"%string 1%float))
    = NetDial
      :: NetWriteMessage
           [Byte.x11; Byte.x10; Byte.x11; Byte.x00;
            Byte.x00; Byte.x00; Byte.x00; Byte.x03;
            Byte.x1f; Byte.x7b; Byte.x7d]
      :: ops.
Proof.
  exact (proj1 (@request_frame_layout sample_libraries sample_config
           {| dial_fails := false; write_fails := false; reads := [] |}
           "id"%string (sample_globals 0) "hello"%string "alloy"%string 1%float
           [Byte.x7b; Byte.x7d]
           ltac:(vm_compute; discriminate) ltac:(vm_compute; reflexivity)
           ltac:(reflexivity) ltac:(reflexivity))).
Defined.

(** C4. For a text longer than [MaxTextLength], [setupByteDanceInput]
    fails with [ErrTextTooLong]; [streamSynthesize] performs no network
    operation at all on such a text, and when the call is admitted its
    result is that error. *)
Theorem text_too_long_before_network {L : Libraries} (appConfig : Config)
    (up : Upstream) (reqID : string) (g : Globals)
    (text voiceType : string) (speed : float) :
  MaxTextLength appConfig < Z.of_nat (String.length text) ->
  let tooLong :=
    ErrTextTooLong (Z.of_nat (String.length text)) (MaxTextLength appConfig) in
  let call := streamSynthesize appConfig up reqID g text voiceType speed in
  setupByteDanceInput appConfig reqID text optSubmit speed = inr tooLong /\
  snd (fst call) = [] /\
  (Z.of_nat (semaphore g) < MaxConcurrentCalls appConfig ->
   fst (fst call) = Some (Fails tooLong)).
Proof.
  intros Hlong. cbv zeta.
  pose proof (setup_too_long appConfig reqID text optSubmit speed Hlong) as E.
  split; [exact E|].
  unfold streamSynthesize, synthesizeAdmitted. rewrite E.
  split.
  - destruct (acquire appConfig g); reflexivity.
  - intros Hsem. now rewrite (acquire_admits _ _ Hsem).
Qed.

Lemma text_too_long_before_network_witness :
  let call :=
    @streamSynthesize sample_libraries sample_config
      {| dial_fails := false; write_fails := false; reads := [] |}
      "id"%string (sample_globals 0) "too long"%string "alloy"%string 1%float in
  fst (fst call) = Some (Fails (ErrTextTooLong 8 5)) /\ snd (fst call) = [].
Proof.
  cbv zeta.
  pose proof (@text_too_long_before_network sample_libraries sample_config
           {| dial_fails := false; write_fails := false; reads := [] |}
           "id"%string (sample_globals 0) "too long"%string "alloy"%string
           1%float ltac:(vm_compute; reflexivity)) as H.
  cbv zeta in H. destruct H as (_ & Hops & Hres).
  exact (conj (Hres ltac:(vm_compute; reflexivity)) Hops).
Defined.



End RelayClaims.

(** ** Comparisons of binary64 values *)

Lemma SFcompare_antisym (f1 f2 : spec_float) :
  SFcompare f2 f1 = option_map CompOpp (SFcompare f1 f2).
Proof.
  destruct f1 as [s1|s1| |s1 m1 e1], f2 as [s2|s2| |s2 m2 e2]; cbn;
    try reflexivity;
    try (destruct s1; reflexivity); try (destruct s2; reflexivity);
    try (destruct s1, s2; reflexivity).
  f_equal. rewrite (Z.compare_antisym e1 e2).
  destruct s1, s2; cbn; try reflexivity; destruct (e1 ?= e2); cbn;
    try reflexivity.
  - rewrite (Pos.compare_cont_antisym m1 m2 Eq). reflexivity.
  - rewrite (Pos.compare_cont_antisym m1 m2 Eq). reflexivity.
Qed.

Lemma not_nan_spec (x : float) : is_nan x = false -> Prim2SF x <> S754_nan.
Proof.
  unfold is_nan. rewrite eqb_spec. intros H E. rewrite E in H. discriminate.
Qed.

Lemma SFcompare_total (f1 f2 : spec_float) :
  f1 <> S754_nan -> f2 <> S754_nan -> SFcompare f1 f2 <> None.
Proof.
  destruct f1, f2; cbn; congruence.
Qed.

Lemma not_ltb_leb (x y : float) :
  is_nan x = false -> is_nan y = false ->
  PrimFloat.ltb x y = false -> PrimFloat.leb y x = true.
Proof.
  intros Hx Hy. rewrite ltb_spec, leb_spec. unfold SFltb, SFleb.
  rewrite (SFcompare_antisym (Prim2SF x) (Prim2SF y)).
  pose proof (SFcompare_total _ _ (not_nan_spec _ Hx) (not_nan_spec _ Hy)) as T.
  destruct (SFcompare (Prim2SF x) (Prim2SF y)) as [[| |]|]; cbn; congruence.
Qed.

(** ** The request handler *)

Module HandlerProofs.

Import MetricsGo MainGo.

Lemma checkSpeedAndCall_calls (req : OpenAITTSRequest) (text voice : string)
    (s : float) :
  checkSpeedAndCall req = CallStreamSynthesize text voice s ->
  text = Input req /\ s = defaulted (Speed req) /\
  PrimFloat.ltb s 0.5 = false /\ PrimFloat.ltb 2 s = false.
Proof.
  unfold checkSpeedAndCall, defaulted.
  destruct (PrimFloat.ltb _ 0.5 || PrimFloat.ltb 2 _) eqn:E; [discriminate|].
  intros H. injection H as <- _ <-.
  apply orb_false_elim in E. tauto.
Qed.

Lemma checkSpeedAndCall_rejects (req : OpenAITTSRequest) :
  PrimFloat.ltb (defaulted (Speed req)) 0.5
  || PrimFloat.ltb 2 (defaulted (Speed req)) = true ->
  checkSpeedAndCall req = Respond StatusBadRequest "invalid_request".
Proof.
  unfold checkSpeedAndCall, defaulted. now intros ->.
Qed.

Lemma defaulted_not_nan (speed : float) :
  is_nan speed = false -> is_nan (defaulted speed) = false.
Proof.
  unfold defaulted. now destruct (PrimFloat.eqb speed 0).
Qed.

Lemma handler_calls (appConfig : Config) (m : Metrics) (c : HTTPRequest)
    (text voice : string) (s : float) :
  handleOpenAITTSRequest appConfig m c = CallStreamSynthesize text voice s ->
  exists req,
    boundJSON c = Some req /\
    checkSpeedAndCall req = CallStreamSynthesize text voice s.
Proof.
  unfold handleOpenAITTSRequest.
  repeat match goal with
         | |- context [if ?b then Respond _ _ else _] =>
             destruct b; [discriminate|]
         end.
  destruct (boundJSON c) as [req|]; [|discriminate].
  repeat match goal with
         | |- context [if ?b then Respond _ _ else _] =>
             destruct b; [discriminate|]
         end.
  intros H. now exists req.
Qed.

Lemma handler_rejects (appConfig : Config) (m : Metrics) (c : HTTPRequest)
    (req : OpenAITTSRequest) :
  boundJSON c = Some req ->
  checkSpeedAndCall req = Respond StatusBadRequest "invalid_request" ->
  exists statusCode errorType,
    handleOpenAITTSRequest appConfig m c = Respond statusCode errorType.
Proof.
  intros Hb Hr. unfold handleOpenAITTSRequest. rewrite Hb, Hr.
  repeat match goal with
         | |- context [if ?b then _ else _] => destruct b
         end; eexists; eexists; reflexivity.
Qed.

End HandlerProofs.

Module HandlerClaims.

Import MetricsGo MainGo HandlerProofs.




End HandlerClaims.

Module ReceiveLoopClaims.

Import MetricsGo MainGo CodecProofs RelayProofs.

(** C1.  The upstream sends one audio chunk and the connection then
    drops: [ReadMessage] fails with the close error 1006 (abnormal
    closure).  One chunk has been accumulated, yet [streamSynthesize]
    fails with [ErrMessageReadFailed] and the audio is lost: 1006 and
    1001 are the codes the test of the loop excludes.  The same read
    error with another close code returns the partial audio, and a read
    error before any audio fails with [ErrMessageReadFailed]. *)
Theorem partial_audio_lost_on_abnormal_closure :
  let chunk := ReadMessage (audioFrame 1 [Byte.x41; Byte.x42]) in
  let closed code := ReadFails (CloseError code "unexpected EOF") in
  let call rs :=
    fst (fst (@streamSynthesize sample_libraries sample_config
                {| dial_fails := false; write_fails := false; reads := rs |}
                "id" (sample_globals 0) "hello" "alloy" 1%float)) in
  call [chunk; closed CloseAbnormalClosure]
    = Some (Fails (ErrMessageReadFailed
                     (CloseError CloseAbnormalClosure "unexpected EOF"))) /\
  call [chunk; closed CloseGoingAway]
    = Some (Fails (ErrMessageReadFailed
                     (CloseError CloseGoingAway "unexpected EOF"))) /\
  call [chunk; closed 1011] = Some (Returns [Byte.x41; Byte.x42]) /\
  call [closed 1011]
    = Some (Fails (ErrMessageReadFailed (CloseError 1011 "unexpected EOF"))).
Proof.
  cbv zeta. repeat split; vm_compute; reflexivity.
Qed.

End ReceiveLoopClaims.

(** * Further properties *)

(** ** The gauges and the counters of the registry *)

Module MetricsExtras.

Import MetricsGo MetricsProofs.

Lemma gauges_step (m : Metrics) (c : Call) (k : Z) :
  0 <= activeConnections m <= k -> 0 <= currentCalls m <= k ->
  k + 1 <= int64_max ->
  0 <= activeConnections (apply_call m c) <= k + 1 /\
  0 <= currentCalls (apply_call m c) <= k + 1.
Proof.
  unfold int64_max. intros Ha Hc Hk.
  assert (Hw : forall z, 0 <= z <= k + 1 -> wrap64 z = z).
  { intros z Hz. apply wrap64_small.
    unfold in_int64, int64_min, int64_max. lia. }
  destruct c; cbn [apply_call].
  - cbn. lia.
  - cbn. lia.
  - unfold IncActiveConnections. cbn. rewrite Hw by lia. lia.
  - unfold DecActiveConnections.
    destruct (Z.ltb_spec 0 (activeConnections m)); cbn; [rewrite Hw by lia|]; lia.
  - unfold IncCurrentCalls. cbn. rewrite Hw by lia. lia.
  - unfold DecCurrentCalls.
    destruct (Z.ltb_spec 0 (currentCalls m)); cbn; [rewrite Hw by lia|]; lia.
Qed.

Lemma gauges_run (cs : list Call) (m : Metrics) (k : Z) :
  0 <= activeConnections m <= k -> 0 <= currentCalls m <= k ->
  k + Z.of_nat (List.length cs) <= int64_max ->
  0 <= activeConnections (run_calls m cs) <= k + Z.of_nat (List.length cs) /\
  0 <= currentCalls (run_calls m cs) <= k + Z.of_nat (List.length cs).
Proof.
  revert m k. induction cs as [|c cs IH]; intros m k Ha Hc Hk.
  - cbn. lia.
  - cbn [run_calls fold_left List.length] in *.
    rewrite Nat2Z.inj_succ in *.
    destruct (gauges_step m c k Ha Hc ltac:(lia)) as [Ha' Hc'].
    specialize (IH (apply_call m c) (k + 1) Ha' Hc' ltac:(lia)).
    unfold run_calls in IH. lia.
Qed.

(** X1. The gauges [activeConnections] and [currentCalls] never become
    negative, whatever calls are made on the registry and in whatever
    order (a decrement with no matching increment included); they are at
    most the number of calls made. *)
Theorem gauges_never_negative (cs : list Call) :
  Z.of_nat (List.length cs) <= int64_max ->
  let m := run_calls initMetrics cs in
  0 <= activeConnections m <= Z.of_nat (List.length cs) /\
  0 <= currentCalls m <= Z.of_nat (List.length cs).
Proof.
  intros H. cbv zeta.
  assert (Ha : 0 <= activeConnections initMetrics <= 0) by (cbn; lia).
  assert (Hc : 0 <= currentCalls initMetrics <= 0) by (cbn; lia).
  pose proof (gauges_run cs initMetrics 0 Ha Hc ltac:(lia)) as G.
  rewrite Z.add_0_l in G. exact G.
Qed.

Lemma gauges_never_negative_witness :
  0 <= activeConnections
         (run_calls initMetrics
            [CallDecActiveConnections; CallIncActiveConnections;
             CallDecActiveConnections; CallDecActiveConnections]) <= 4.
Proof.
  exact (proj1 (gauges_never_negative
                  [CallDecActiveConnections; CallIncActiveConnections;
                   CallDecActiveConnections; CallDecActiveConnections]
                  ltac:(vm_compute; discriminate))).
Defined.

(** X2. A decrement undoes an increment: after [IncActiveConnections]
    then [DecActiveConnections] the registry is what it was, and likewise
    for the calls in flight; a decrement of a gauge that is zero changes
    nothing. *)
Theorem increment_then_decrement (m : Metrics) :
  (0 <= activeConnections m < int64_max ->
   DecActiveConnections (IncActiveConnections m) = m) /\
  (0 <= currentCalls m < int64_max ->
   DecCurrentCalls (IncCurrentCalls m) = m) /\
  (activeConnections m = 0 -> DecActiveConnections m = m) /\
  (currentCalls m = 0 -> DecCurrentCalls m = m).
Proof.
  unfold int64_max.
  destruct m as [rc sc ec ac cc tot es]. cbn [activeConnections currentCalls].
  unfold DecActiveConnections, IncActiveConnections, DecCurrentCalls,
    IncCurrentCalls, set_activeConnections, set_currentCalls.
  cbn [activeConnections currentCalls requestCount successCount errorCount
       totalResponseTime errors].
  repeat split; intros H.
  - rewrite (wrap64_small (ac + 1))
      by (unfold in_int64, int64_min, int64_max; lia).
    rewrite (proj2 (Z.ltb_lt 0 (ac + 1))) by lia.
    rewrite wrap64_small by (unfold in_int64, int64_min, int64_max; lia).
    f_equal. lia.
  - rewrite (wrap64_small (cc + 1))
      by (unfold in_int64, int64_min, int64_max; lia).
    rewrite (proj2 (Z.ltb_lt 0 (cc + 1))) by lia.
    rewrite wrap64_small by (unfold in_int64, int64_min, int64_max; lia).
    f_equal. lia.
  - subst ac. reflexivity.
  - subst cc. reflexivity.
Qed.

Lemma increment_then_decrement_witness :
  DecActiveConnections (IncActiveConnections initMetrics) = initMetrics.
Proof.
  exact (proj1 (increment_then_decrement initMetrics)
           ltac:(vm_compute; split; [discriminate|reflexivity])).
Defined.

(** X3. The counters count the [RecordRequest] calls made: all of them,
    the successful ones, the failed ones.  [RecordError] and the gauge
    calls leave them alone, so [GetErrorCount] is the number of failed
    requests and not the number of error records logged. *)
Theorem counters_count_requests (cs : list Call) :
  Z.of_nat (requests cs) <= int64_max ->
  let m := run_calls initMetrics cs in
  GetRequestCount m = Z.of_nat (requests cs) /\
  successCount m = Z.of_nat (successes cs) /\
  GetErrorCount m = Z.of_nat (failures cs).
Proof.
  intros H. cbv zeta.
  destruct (reachable_counted cs H) as (Hr & Hs & He & Hle).
  pose proof (requests_split cs) as Sp.
  unfold GetRequestCount, GetErrorCount.
  split; [exact Hr|]. split; [exact Hs|]. rewrite He. lia.
Qed.

Lemma counters_count_requests_witness :
  GetErrorCount
    (run_calls initMetrics
       [CallRecordError "t" "kind" "message"; CallRecordRequest true 5;
        CallRecordError "t" "kind" "message"]) = 0.
Proof.
  exact (proj2 (proj2 (counters_count_requests
           [CallRecordError "t" "kind" "message"; CallRecordRequest true 5;
            CallRecordError "t" "kind" "message"]
           ltac:(vm_compute; discriminate)))).
Defined.

Lemma request_times_app (cs1 cs2 : list Call) :
  request_times (cs1 ++ cs2) = request_times cs1 ++ request_times cs2.
Proof.
  induction cs1 as [|c cs1 IH]; [reflexivity|].
  destruct c; cbn; rewrite IH; reflexivity.
Qed.

Lemma total_run (T : Z) (cs : list Call) (n : nat) (tot : Z) (m : Metrics) :
  0 <= T ->
  requestCount m = Z.of_nat n -> totalResponseTime m = tot ->
  0 <= tot <= Z.of_nat n * T ->
  Forall (fun t => 0 <= t <= T) (request_times cs) ->
  Z.of_nat (n + requests cs) <= int64_max ->
  Z.of_nat (n + requests cs) * T <= int64_max ->
  requestCount (run_calls m cs) = Z.of_nat (n + requests cs) /\
  totalResponseTime (run_calls m cs) = tot + sum_times cs /\
  0 <= tot + sum_times cs <= Z.of_nat (n + requests cs) * T.
Proof.
  intros HT. revert n tot m.
  induction cs as [|c cs IH]; intros n tot m Hr Ht Hb Hall Hn HnT.
  - cbn. rewrite Nat.add_0_r in *. unfold sum_times. cbn. lia.
  - change (c :: cs) with ([c] ++ cs) in *.
    rewrite requests_app in *. rewrite request_times_app in Hall.
    apply Forall_app in Hall. destruct Hall as [Hc Hall].
    rewrite run_calls_app. unfold sum_times in *.
    rewrite request_times_app, fold_right_app.
    destruct c as [success ms|now ty msg| | | |];
      cbn [requests filter List.length request_times fold_right app] in *;
      try (rewrite Nat.add_0_l in *;
           apply (IH n tot); try assumption;
           cbn [run_calls fold_left apply_call];
           unfold RecordError, IncActiveConnections, DecActiveConnections,
             IncCurrentCalls, DecCurrentCalls;
           repeat match goal with
                  | |- context [if ?b then _ else _] => destruct b
                  end; assumption).
    inversion Hc as [|t ts Hms _]; subst.
    assert (Hn1 : Z.of_nat (n + 1) <= int64_max) by lia.
    assert (HnT1 : Z.of_nat (n + 1) * T <= int64_max) by nia.
    unfold int64_max in *.
    specialize (IH (n + 1)%nat (totalResponseTime m + ms)
                  (run_calls m [CallRecordRequest success ms])).
    replace (n + (1 + requests cs))%nat with (n + 1 + requests cs)%nat by lia.
    rewrite !Z.add_assoc.
    apply IH.
    + cbn. rewrite Hr. rewrite wrap64_small
        by (unfold in_int64, int64_min, int64_max; lia). lia.
    + cbn. apply wrap64_small. unfold in_int64, int64_min, int64_max. nia.
    + nia.
    + assumption.
    + replace (n + 1 + requests cs)%nat with (n + (1 + requests cs))%nat by lia.
      assumption.
    + replace (n + 1 + requests cs)%nat with (n + (1 + requests cs))%nat by lia.
      assumption.
Qed.

(** X4. When every recorded response time lies between 0 and T (and the
    64-bit total cannot overflow), [totalResponseTime] is the sum of the
    recorded times and [GetAvgResponseTime] is that sum divided by the
    number of requests, a value between 0 and T. *)
Theorem average_response_time_bounds (T : Z) (cs : list Call) :
  0 <= T ->
  Forall (fun t => 0 <= t <= T) (request_times cs) ->
  Z.of_nat (requests cs) <= int64_max ->
  Z.of_nat (requests cs) * T <= int64_max ->
  let m := run_calls initMetrics cs in
  totalResponseTime m = sum_times cs /\
  GetAvgResponseTime m =
    (if (requests cs =? 0)%nat then 0
     else sum_times cs / Z.of_nat (requests cs)) /\
  0 <= GetAvgResponseTime m <= T.
Proof.
  intros HT Hall Hn HnT. cbv zeta.
  destruct (total_run T cs 0 0 initMetrics HT eq_refl eq_refl ltac:(lia)
              Hall Hn HnT) as (Hr & Ht & Hb).
  cbn [Nat.add] in *. rewrite Z.add_0_l in *.
  split; [exact Ht|].
  unfold GetAvgResponseTime. rewrite Hr, Ht.
  destruct (Nat.eqb_spec (requests cs) 0) as [E|E].
  - rewrite E. cbn. lia.
  - assert (Hpos : 0 < Z.of_nat (requests cs)) by lia.
    rewrite (proj2 (Z.eqb_neq _ 0)) by lia.
    rewrite Z.quot_div_nonneg by lia.
    assert (Hq : 0 <= sum_times cs / Z.of_nat (requests cs) <= T).
    { split.
      - apply Z.div_pos; lia.
      - apply Z.div_le_upper_bound; [lia|]. lia. }
    unfold int64_max in *.
    rewrite wrap64_small by (unfold in_int64, int64_min, int64_max; nia).
    split; [reflexivity|exact Hq].
Qed.

Lemma average_response_time_bounds_witness :
  GetAvgResponseTime
    (run_calls initMetrics
       [CallRecordRequest true 100; CallRecordRequest false 201]) = 150.
Proof.
  exact (proj1 (proj2 (average_response_time_bounds 300
           [CallRecordRequest true 100; CallRecordRequest false 201]
           ltac:(lia)
           ltac:(repeat constructor; lia)
           ltac:(vm_compute; discriminate)
           ltac:(vm_compute; discriminate)))).
Defined.

End MetricsExtras.

(** ** Configuration *)

Module ConfigExtras.

Import MetricsGo MainGo.

Lemma missingEnvs_nil (c : Config) :
  missingEnvs c = [] <->
  ByteDanceAppID c <> "XXX"%string /\ ByteDanceToken c <> "XXX"%string /\
  ByteDanceCluster c <> "xxxx"%string /\ ByteDanceVoiceType c <> ""%string.
Proof.
  unfold missingEnvs.
  destruct (String.eqb_spec (ByteDanceAppID c) "XXX");
  destruct (String.eqb_spec (ByteDanceToken c) "XXX");
  destruct (String.eqb_spec (ByteDanceCluster c) "xxxx");
  destruct (String.eqb_spec (ByteDanceVoiceType c) "");
  cbn; split; try discriminate; try tauto.
Qed.

Lemma missingEnvs_In (c : Config) (name : string) :
  In name (missingEnvs c) <->
  (name = "BYTEDANCE_TTS_APP_ID"%string /\ ByteDanceAppID c = "XXX"%string) \/
  (name = "BYTEDANCE_TTS_BEARER_TOKEN"%string
   /\ ByteDanceToken c = "XXX"%string) \/
  (name = "BYTEDANCE_TTS_CLUSTER"%string
   /\ ByteDanceCluster c = "xxxx"%string) \/
  (name = "BYTEDANCE_TTS_VOICE_TYPE"%string
   /\ ByteDanceVoiceType c = ""%string).
Proof.
  unfold missingEnvs.
  destruct (String.eqb_spec (ByteDanceAppID c) "XXX");
  destruct (String.eqb_spec (ByteDanceToken c) "XXX");
  destruct (String.eqb_spec (ByteDanceCluster c) "xxxx");
  destruct (String.eqb_spec (ByteDanceVoiceType c) "");
  cbn; split; intros H;
    repeat match goal with
           | H : _ \/ _ |- _ => destruct H
           | H : _ /\ _ |- _ => destruct H
           | H : False |- _ => destruct H
           end; subst; try contradiction; try congruence; tauto.
Qed.

Lemma validate_accepts_iff (c : Config) (r : ConfigRest) :
  ValidateConfig c r = None <->
  ByteDanceAppID c <> "XXX"%string /\ ByteDanceToken c <> "XXX"%string /\
  ByteDanceCluster c <> "xxxx"%string /\ ByteDanceVoiceType c <> ""%string /\
  0 < DialTimeout r /\ 0 < ReadTimeout r /\ 0 < WriteTimeout r /\
  0 < MaxConnections c /\ 0 < MaxRequestSizeMB c /\
  0 < MaxTextLength c /\ 0 < MaxConcurrentCalls c.
Proof.
  unfold ValidateConfig.
  pose proof (missingEnvs_nil c) as Hnil.
  destruct (missingEnvs c) as [|x l] eqn:Em; cbn [List.length Nat.ltb Nat.leb].
  - destruct (Z.leb_spec (DialTimeout r) 0);
    destruct (Z.leb_spec (ReadTimeout r) 0);
    destruct (Z.leb_spec (WriteTimeout r) 0);
    destruct (Z.leb_spec (MaxConnections c) 0);
    destruct (Z.leb_spec (MaxRequestSizeMB c) 0);
    destruct (Z.leb_spec (MaxTextLength c) 0);
    destruct (Z.leb_spec (MaxConcurrentCalls c) 0);
    split; intros Hyp; try discriminate; try reflexivity;
      try (exfalso; lia); try (destruct Hnil as [Hn _];
                               specialize (Hn eq_refl); tauto).
  - split; [discriminate|]. intros Hyp. destruct Hnil as [_ Hn].
    assert (E : x :: l = []) by (apply Hn; tauto). discriminate.
Qed.

(** X5. [ValidateConfig] accepts a configuration exactly when none of the
    four required settings is left at its placeholder and the three
    timeouts and the four limits are positive; in particular an accepted
    configuration has a positive [MaxConcurrentCalls] and a positive
    [MaxTextLength]. *)
Theorem ValidateConfig_accepts (c : Config) (r : ConfigRest) :
  ValidateConfig c r = None <->
  ByteDanceAppID c <> "XXX"%string /\ ByteDanceToken c <> "XXX"%string /\
  ByteDanceCluster c <> "xxxx"%string /\ ByteDanceVoiceType c <> ""%string /\
  0 < DialTimeout r /\ 0 < ReadTimeout r /\ 0 < WriteTimeout r /\
  0 < MaxConnections c /\ 0 < MaxRequestSizeMB c /\
  0 < MaxTextLength c /\ 0 < MaxConcurrentCalls c.
Proof. exact (validate_accepts_iff c r). Qed.

Lemma ValidateConfig_accepts_witness :
  0 < MaxConcurrentCalls sample_config.
Proof.
  exact (proj2 (proj2 (proj2 (proj2 (proj2 (proj2 (proj2 (proj2 (proj2 (proj2
    (proj1 (ValidateConfig_accepts sample_config
              {| ServerHost := "0.0.0.0"; ServerPort := "8080";
                 DialTimeout := 10 * Second; ReadTimeout := 30 * Second;
                 WriteTimeout := 30 * Second; LogLevel := "info" |})
       ltac:(vm_compute; reflexivity)))))))))))).
Defined.



Section Loading.

Context {P : Parsers}.

Lemma getEnv_set (env : Environ) (key defaultValue : string) :
  env key <> ""%string -> getEnv env key defaultValue = env key.
Proof.
  intros H. unfold getEnv.
  now destruct (String.eqb_spec (env key) "").
Qed.

Lemma getEnvInt_cases (env : Environ) (key : string) (defaultValue : Z) :
  (getEnvInt env key defaultValue = defaultValue /\
   (env key = ""%string \/ strconv_Atoi (env key) = None)) \/
  (env key <> ""%string /\
   strconv_Atoi (env key) = Some (getEnvInt env key defaultValue)).
Proof.
  unfold getEnvInt.
  destruct (String.eqb_spec (env key) ""); cbn [negb]; [left; tauto|].
  destruct (strconv_Atoi (env key)) as [v|]; [right|left]; tauto.
Qed.

Lemma getEnvDuration_cases (env : Environ) (key : string) (defaultValue : Z) :
  (getEnvDuration env key defaultValue = defaultValue /\
   (env key = ""%string \/ time_ParseDuration (env key) = None)) \/
  (env key <> ""%string /\
   time_ParseDuration (env key)
   = Some (getEnvDuration env key defaultValue)).
Proof.
  unfold getEnvDuration.
  destruct (String.eqb_spec (env key) ""); cbn [negb]; [left; tauto|].
  destruct (time_ParseDuration (env key)) as [v|]; [right|left]; tauto.
Qed.

Lemma getEnvInt_positive (env : Environ) (key : string) (defaultValue : Z) :
  0 < defaultValue ->
  (forall v, env key <> ""%string -> strconv_Atoi (env key) = Some v -> 0 < v) ->
  0 < getEnvInt env key defaultValue.
Proof.
  intros Hd Hp.
  destruct (getEnvInt_cases env key defaultValue) as [[-> _]|[Hne E]];
    [assumption|].
  exact (Hp _ Hne E).
Qed.

Lemma getEnvDuration_positive (env : Environ) (key : string)
    (defaultValue : Z) :
  0 < defaultValue ->
  (forall v, env key <> ""%string ->
             time_ParseDuration (env key) = Some v -> 0 < v) ->
  0 < getEnvDuration env key defaultValue.
Proof.
  intros Hd Hp.
  destruct (getEnvDuration_cases env key defaultValue) as [[-> _]|[Hne E]];
    [assumption|].
  exact (Hp _ Hne E).
Qed.


End Loading.


End ConfigExtras.

(** ** API keys *)

Module KeyExtras.

Import MetricsGo MainGo MonitoringGo.

Lemma contains_In (c : Ascii.ascii) (s : string) :
  contains c s = true <-> In c (list_ascii_of_string s).
Proof.
  induction s as [|c' s IH]; cbn [contains list_ascii_of_string In].
  - split; [discriminate|contradiction].
  - rewrite orb_true_iff, IH, Ascii.eqb_eq. split; intros [H|H]; auto.
Qed.

Lemma no_illegal_spec (key : string) :
  no_illegal key = true <->
  forall c, In c (list_ascii_of_string key) ->
            ~ In c (list_ascii_of_string illegalChars).
Proof.
  induction key as [|char key IH]; cbn [no_illegal list_ascii_of_string In].
  - split; [intros _ c []|reflexivity].
  - rewrite andb_true_iff, negb_true_iff, IH. split.
    + intros [Hc Hk] c [<-|Hin].
      * intros Hil. apply contains_In in Hil. congruence.
      * now apply Hk.
    + intros H. split.
      * destruct (contains char illegalChars) eqn:E; [|reflexivity].
        exfalso. apply (H char); [now left|]. now apply contains_In.
      * intros c Hin. apply H. now right.
Qed.

Lemma substring_all (s : string) : substring 0 (String.length s) s = s.
Proof. induction s as [|c s IH]; cbn; [reflexivity|now rewrite IH]. Qed.

Lemma substring_split (n : nat) (s : string) :
  (n <= String.length s)%nat ->
  (substring 0 n s ++ substring n (String.length s - n) s)%string = s.
Proof.
  revert s. induction n as [|n IH]; intros s Hn.
  - rewrite Nat.sub_0_r, substring_all. destruct s; reflexivity.
  - destruct s as [|c s]; cbn in Hn; [lia|].
    cbn [substring String.length Nat.sub append]. rewrite IH by lia.
    reflexivity.
Qed.

Lemma substring_prefix (p t : string) :
  substring 0 (String.length p) (p ++ t) = p /\
  substring (String.length p) (String.length t) (p ++ t) = t.
Proof.
  induction p as [|c p [IH1 IH2]]; cbn [append String.length substring].
  - split; [destruct t; reflexivity|apply substring_all].
  - rewrite IH1. split; [reflexivity|exact IH2].
Qed.

Lemma length_append (p t : string) :
  String.length (p ++ t) = (String.length p + String.length t)%nat.
Proof. induction p as [|c p IH]; cbn; [reflexivity|now rewrite IH]. Qed.

(** A header that reads Bearer, a space, and a non-empty token. *)
Lemma bearer_header (h token : string) :
  token <> ""%string ->
  ((7 <? String.length h)%nat
   && String.eqb (substring 0 7 h) "Bearer "
   && String.eqb (substring 7 (String.length h - 7) h) token = true
   <-> h = ("Bearer " ++ token)%string).
Proof.
  intros Ht. rewrite !andb_true_iff, Nat.ltb_lt, !String.eqb_eq. split.
  - intros [[Hl Hp] Hs].
    rewrite <- (substring_split 7 h) by lia. now rewrite Hp, Hs.
  - intros ->.
    destruct (substring_prefix "Bearer " token) as [P1 P2].
    rewrite length_append. change (String.length "Bearer ") with 7%nat in *.
    replace (7 + String.length token - 7)%nat with (String.length token) by lia.
    repeat split; try assumption.
    destruct token; [contradiction|cbn; lia].
Qed.

(** X8. [isValidAPIKey] accepts a key exactly when it is not empty and
    none of its characters is one of the illegal characters (brackets,
    braces, angle brackets, quotes and the listed symbols). *)
Theorem isValidAPIKey_accepts (key : string) :
  isValidAPIKey key = true <->
  key <> ""%string /\
  forall c, In c (list_ascii_of_string key) ->
            ~ In c (list_ascii_of_string illegalChars).
Proof.
  unfold isValidAPIKey.
  destruct (String.eqb_spec key "") as [->|Hne].
  - split; [discriminate|intros [H _]; contradiction].
  - rewrite no_illegal_spec. tauto.
Qed.

Lemma isValidAPIKey_accepts_witness :
  isValidAPIKey "sk-abc(1)" = false.
Proof.
  destruct (isValidAPIKey "sk-abc(1)") eqn:E; [|reflexivity].
  exfalso.
  apply (proj2 (proj1 (isValidAPIKey_accepts "sk-abc(1)") E)
           (Ascii.ascii_of_nat 40)).
  - cbn. tauto.
  - vm_compute. tauto.
Defined.

(** X9. The monitoring endpoints accept every request when
    TARGET_API_TOKEN is not set; when it is set they accept exactly the
    requests whose Authorization header is Bearer, one space, and the
    token. *)
Theorem validateAPIKey_accepts (env : Environ) (authHeader : string) :
  validateAPIKey env authHeader = true <->
  env "TARGET_API_TOKEN"%string = ""%string \/
  authHeader = ("Bearer " ++ env "TARGET_API_TOKEN"%string)%string.
Proof.
  unfold validateAPIKey, getEnv.
  destruct (String.eqb_spec (env "TARGET_API_TOKEN"%string) "") as [E|E];
    cbn [negb].
  - rewrite E. cbn. tauto.
  - destruct (String.eqb_spec (env "TARGET_API_TOKEN"%string) "") as [E'|_];
      [contradiction|].
    pose proof (bearer_header authHeader _ E) as Hb.
    destruct (String.eqb_spec authHeader "") as [->|Hh].
    + split; [discriminate|]. intros [H|H]; [contradiction|discriminate].
    + destruct ((7 <? String.length authHeader)%nat
                && String.eqb (substring 0 7 authHeader) "Bearer ") eqn:Ep.
      * cbn [andb] in Hb. rewrite Hb. tauto.
      * cbn [andb] in Hb. split; [discriminate|].
        intros [H|H]; [contradiction|]. apply Hb in H. discriminate.
Qed.

Lemma validateAPIKey_accepts_witness :
  validateAPIKey
    (fun key => if String.eqb key "TARGET_API_TOKEN" then "secret" else "")%string
    "Bearer secret" = true.
Proof.
  exact (proj2 (validateAPIKey_accepts
           (fun key => if String.eqb key "TARGET_API_TOKEN"
                       then "secret" else "")%string "Bearer secret")
         ltac:(right; reflexivity)).
Defined.

End KeyExtras.

(** ** The frame codec, beyond audio frames *)

Module CodecExtras.

Import MetricsGo MainGo CodecProofs.

Section Codec.

Context {L : Libraries}.

Lemma dispatch_error_frame (flags compression : Z) (payload : list byte) :
  dispatchMessage 0xf flags compression payload =
  if (List.length payload <? 8)%nat
  then (zeroSynthResp, Some ErrorInsufficient)
  else (zeroSynthResp,
        Some (ServerError (int32 (BigEndian_Uint32 (firstn 4 payload)))
                (if compression =? 1 then gzipDecompress (skipn 8 payload)
                 else skipn 8 payload))).
Proof. reflexivity. Qed.

Lemma dispatch_cases (messageType flags compression : Z)
    (payload : list byte) (resp : SynthResp) (err : option ParseError) :
  dispatchMessage messageType flags compression payload = (resp, err) ->
  (err <> None -> resp = zeroSynthResp) /\
  (resp <> zeroSynthResp ->
   err = None /\ messageType = 0xb /\ flags <> 0 /\
   (8 <= List.length payload)%nat /\
   Audio resp = skipn 8 payload /\
   IsLast resp = (int32 (BigEndian_Uint32 (firstn 4 payload)) <? 0)).
Proof.
  unfold dispatchMessage.
  destruct (Z.eqb_spec messageType 0xb) as [Eb|Eb].
  - destruct (Z.eqb_spec flags 0) as [Ef|Ef].
    + intros H. injection H as <- <-. split; [reflexivity|contradiction].
    + destruct (Nat.ltb_spec (List.length payload) 8) as [Hl|Hl].
      * intros H. injection H as <- <-. split; [reflexivity|contradiction].
      * cbn [Audio IsLast zeroSynthResp app]. unfold bytes_from.
        destruct (int32 (BigEndian_Uint32 (firstn 4 payload)) <? 0);
          intros H; injection H as <- <-;
          (split; [intros C; contradiction|]);
          intros _; repeat split; assumption || reflexivity.
  - destruct (messageType =? 0xf).
    + destruct (List.length payload <? 8)%nat;
        intros H; injection H as <- <-; split;
        [reflexivity|contradiction|reflexivity|contradiction].
    + destruct (messageType =? 0xc).
      * destruct (List.length payload <? 4)%nat;
          intros H; injection H as <- <-; split;
          [reflexivity|contradiction|reflexivity|contradiction].
      * intros H; injection H as <- <-; split; [reflexivity|contradiction].
Qed.

(** X10. [parseByteDanceResponse] never returns audio together with an
    error; and whenever it returns audio or the last-message mark, the
    frame is an audio frame (type 0xB) with non-zero flags, the audio is
    the frame from byte 8 of the payload on, unchanged, and the mark is
    the sign of the sequence number. *)
Theorem parse_audio_only_from_audio_frames (res : list byte)
    (resp : SynthResp) (err : option ParseError) :
  parseByteDanceResponse res = (resp, err) ->
  (err <> None -> resp = zeroSynthResp) /\
  (resp <> zeroSynthResp ->
   let payload := skipn (Z.to_nat (4 * Z.land (index res 0) 0x0f)) res in
   err = None /\
   Z.shiftr (index res 1) 4 = 0xb /\ Z.land (index res 1) 0x0f <> 0 /\
   Audio resp = skipn 8 payload /\
   IsLast resp = (int32 (BigEndian_Uint32 (firstn 4 payload)) <? 0) /\
   Z.of_nat (List.length (Audio resp)) + 8 + 4 * Z.land (index res 0) 0x0f
   = Z.of_nat (List.length res)).
Proof.
  intros H.
  destruct (Nat.lt_ge_cases (List.length res) 4) as [H4|H4].
  { rewrite (parse_too_short res H4) in H. injection H as <- <-.
    split; [reflexivity|contradiction]. }
  pose proof (low_nibble_range (index res 0)) as Hn.
  destruct (Z.lt_ge_cases (Z.of_nat (List.length res))
              (4 * Z.land (index res 0) 0x0f)) as [Hh|Hh].
  { rewrite (parse_header_exceeds res H4 Hh) in H. injection H as <- <-.
    split; [reflexivity|contradiction]. }
  rewrite (parse_dispatch res H4 Hh) in H.
  destruct (dispatch_cases _ _ _ _ _ _ H) as [D1 D2].
  split; [exact D1|]. intros Hr. cbv zeta.
  destruct (D2 Hr) as (E & Et & Ef & Hl & Ea & El).
  rewrite length_skipn in Hl.
  repeat split; try assumption.
  rewrite Ea, !length_skipn. lia.
Qed.

(** X11. On a frame with a valid header and message type 0xF (error):
    a payload under 8 bytes is itself an error; otherwise the result is
    the server error whose code is the big-endian int32 of payload[0:4]
    and whose message is payload[8:], passed through gzip when the
    compression nibble is 1, and kept as it is when it does not
    decompress. *)
Theorem error_frame_decoding (res : list byte) :
  (4 <= List.length res)%nat ->
  4 * Z.land (index res 0) 0x0f <= Z.of_nat (List.length res) ->
  Z.shiftr (index res 1) 4 = 0xf ->
  let compression := Z.land (index res 2) 0x0f in
  let payload := skipn (Z.to_nat (4 * Z.land (index res 0) 0x0f)) res in
  let code := int32 (BigEndian_Uint32 (firstn 4 payload)) in
  ((List.length payload < 8)%nat ->
   parseByteDanceResponse res = (zeroSynthResp, Some ErrorInsufficient)) /\
  ((8 <= List.length payload)%nat -> compression <> 1 ->
   parseByteDanceResponse res
   = (zeroSynthResp, Some (ServerError code (skipn 8 payload)))) /\
  ((8 <= List.length payload)%nat -> compression = 1 ->
   parseByteDanceResponse res
   = (zeroSynthResp,
      Some (ServerError code
              match gzip_read (skipn 8 payload) with
              | Some message => message
              | None => skipn 8 payload
              end))).
Proof.
  intros H4 Hh Ht. cbv zeta.
  rewrite (parse_dispatch res H4 Hh), Ht, dispatch_error_frame.
  split; [|split].
  - intros Hl. now rewrite (proj2 (Nat.ltb_lt _ _) Hl).
  - intros Hl Hc. rewrite (proj2 (Nat.ltb_ge _ _) Hl).
    now rewrite (proj2 (Z.eqb_neq _ _) Hc).
  - intros Hl Hc. rewrite (proj2 (Nat.ltb_ge _ _) Hl), Hc. reflexivity.
Qed.

(** X12. On a frame with a valid header: a frontend message (type 0xC)
    with at least 4 bytes of payload yields neither audio nor an error,
    and with fewer an error; a message type other than 0xB, 0xC and 0xF
    is an unknown-type error carrying the type. *)
Theorem other_frames_decoding (res : list byte) :
  (4 <= List.length res)%nat ->
  4 * Z.land (index res 0) 0x0f <= Z.of_nat (List.length res) ->
  let messageType := Z.shiftr (index res 1) 4 in
  let payload := skipn (Z.to_nat (4 * Z.land (index res 0) 0x0f)) res in
  (messageType = 0xc -> (4 <= List.length payload)%nat ->
   parseByteDanceResponse res = (zeroSynthResp, None)) /\
  (messageType = 0xc -> (List.length payload < 4)%nat ->
   parseByteDanceResponse res = (zeroSynthResp, Some FrontendInsufficient)) /\
  (messageType <> 0xb -> messageType <> 0xc -> messageType <> 0xf ->
   parseByteDanceResponse res
   = (zeroSynthResp, Some (UnknownMessageType messageType))).
Proof.
  intros H4 Hh. cbv zeta.
  rewrite (parse_dispatch res H4 Hh). unfold dispatchMessage.
  split; [|split].
  - intros -> Hl. cbn [Z.eqb Pos.eqb].
    now rewrite (proj2 (Nat.ltb_ge _ _) Hl).
  - intros -> Hl. cbn [Z.eqb Pos.eqb].
    now rewrite (proj2 (Nat.ltb_lt _ _) Hl).
  - intros Hb Hc Hf.
    rewrite (proj2 (Z.eqb_neq _ _) Hb), (proj2 (Z.eqb_neq _ _) Hf),
      (proj2 (Z.eqb_neq _ _) Hc). reflexivity.
Qed.

(** X13. Decoding undoes the layout of an audio frame: for every
    sequence number that fits an int32 and every audio, the frame made of
    the 4-byte header with flags 1, the sequence number, the size and the
    audio decodes to that audio, marked last exactly when the sequence
    number is negative. *)
Theorem audio_frame_round_trip (sequenceNumber : Z) (audioBytes : list byte) :
  - 2 ^ 31 <= sequenceNumber < 2 ^ 31 ->
  parseByteDanceResponse (audioFrame sequenceNumber audioBytes) =
  ({| Audio := audioBytes; IsLast := sequenceNumber <? 0 |}, None).
Proof. exact (parse_audioFrame sequenceNumber audioBytes). Qed.

End Codec.

Lemma parse_audio_only_from_audio_frames_witness :
  Audio (fst (@parseByteDanceResponse sample_libraries
                (audioFrame 7 [Byte.x41; Byte.x42])))
  = skipn 8 (skipn 4 (audioFrame 7 [Byte.x41; Byte.x42])).
Proof.
  exact (proj1 (proj2 (proj2 (proj2 (proj2
    (@parse_audio_only_from_audio_frames sample_libraries
       (audioFrame 7 [Byte.x41; Byte.x42])
       {| Audio := [Byte.x41; Byte.x42]; IsLast := false |} None
       ltac:(vm_compute; reflexivity)) ltac:(discriminate)))))).
Defined.

Lemma error_frame_decoding_witness :
  @parseByteDanceResponse sample_libraries
    [Byte.x11; Byte.xf0; Byte.x11; Byte.x00;
     Byte.x00; Byte.x00; Byte.x0b; Byte.xb8;
     Byte.x00; Byte.x00; Byte.x00; Byte.x03;
     Byte.x1f; Byte.x6e; Byte.x6f]
  = (zeroSynthResp, Some (ServerError 3000 [Byte.x6e; Byte.x6f])).
Proof.
  exact (proj2 (proj2 (@error_frame_decoding sample_libraries
           [Byte.x11; Byte.xf0; Byte.x11; Byte.x00;
            Byte.x00; Byte.x00; Byte.x0b; Byte.xb8;
            Byte.x00; Byte.x00; Byte.x00; Byte.x03;
            Byte.x1f; Byte.x6e; Byte.x6f]
           ltac:(vm_compute; lia) ltac:(vm_compute; discriminate)
           ltac:(vm_compute; reflexivity)))
         ltac:(vm_compute; lia) ltac:(vm_compute; reflexivity)).
Defined.

Lemma other_frames_decoding_witness :
  @parseByteDanceResponse sample_libraries
    [Byte.x11; Byte.x90; Byte.x10; Byte.x00]
  = (zeroSynthResp, Some (UnknownMessageType 9)).
Proof.
  exact (proj2 (proj2 (@other_frames_decoding sample_libraries
           [Byte.x11; Byte.x90; Byte.x10; Byte.x00]
           ltac:(vm_compute; lia) ltac:(vm_compute; discriminate)))
         ltac:(vm_compute; discriminate) ltac:(vm_compute; discriminate)
         ltac:(vm_compute; discriminate)).
Defined.

Lemma audio_frame_round_trip_witness :
  @parseByteDanceResponse sample_libraries (audioFrame (-3) [Byte.x41])
  = ({| Audio := [Byte.x41]; IsLast := true |}, None).
Proof.
  exact (@audio_frame_round_trip sample_libraries (-3) [Byte.x41]
           ltac:(lia)).
Defined.

End CodecExtras.

(** ** The receive loop and the call, beyond the claims *)

Module RelayExtras.

Import MetricsGo MainGo CodecProofs RelayProofs.

Lemma dec_inc_activeConnections (m : Metrics) :
  0 <= activeConnections m < int64_max ->
  DecActiveConnections (IncActiveConnections m) = m.
Proof.
  unfold int64_max. intros H.
  destruct m as [rc sc ec ac cc tot es]. cbn [activeConnections] in H.
  unfold DecActiveConnections, IncActiveConnections, set_activeConnections.
  cbn [activeConnections currentCalls requestCount successCount errorCount
       totalResponseTime errors].
  rewrite (wrap64_small (ac + 1))
    by (unfold in_int64, int64_min, int64_max; lia).
  rewrite (proj2 (Z.ltb_lt 0 (ac + 1))) by lia.
  rewrite wrap64_small by (unfold in_int64, int64_min, int64_max; lia).
  f_equal. lia.
Qed.

Lemma dec_inc_currentCalls (m : Metrics) :
  0 <= currentCalls m < int64_max ->
  DecCurrentCalls (IncCurrentCalls m) = m.
Proof.
  unfold int64_max. intros H.
  destruct m as [rc sc ec ac cc tot es]. cbn [currentCalls] in H.
  unfold DecCurrentCalls, IncCurrentCalls, set_currentCalls.
  cbn [activeConnections currentCalls requestCount successCount errorCount
       totalResponseTime errors].
  rewrite (wrap64_small (cc + 1))
    by (unfold in_int64, int64_min, int64_max; lia).
  rewrite (proj2 (Z.ltb_lt 0 (cc + 1))) by lia.
  rewrite wrap64_small by (unfold in_int64, int64_min, int64_max; lia).
  f_equal. lia.
Qed.

Lemma release_acquired (g : Globals) :
  0 <= currentCalls (GlobalMetrics g) < int64_max ->
  release {| semaphore := S (semaphore g);
             GlobalMetrics := IncCurrentCalls (GlobalMetrics g) |} = g.
Proof.
  intros H. unfold release, receive. cbn [semaphore GlobalMetrics Nat.pred].
  rewrite (dec_inc_currentCalls _ H). now destruct g.
Qed.

Section Relay.

Context {L : Libraries}.

Lemma receiveLoop_message (message : list byte) (rs : list ReadResult)
    (audio : list byte) :
  receiveLoop (ReadMessage message :: rs) audio =
  match parseByteDanceResponse message with
  | (_, Some err) =>
      (Some (Fails (ErrResponseParseFailed err)), [NetReadMessage])
  | (resp, None) =>
      if IsLast resp
      then (Some (Returns (audio ++ Audio resp)), [NetReadMessage])
      else (fst (receiveLoop rs (audio ++ Audio resp)),
            NetReadMessage :: snd (receiveLoop rs (audio ++ Audio resp)))
  end.
Proof.
  cbn [receiveLoop].
  destruct (parseByteDanceResponse message) as [resp [err|]]; [reflexivity|].
  destruct (IsLast resp); [reflexivity|].
  now destruct (receiveLoop rs (audio ++ Audio resp)).
Qed.

(** A run of audio frames that are not the last one is read through: the
    loop goes on from the audio accumulated so far followed by theirs. *)
Lemma receiveLoop_chunks (chunks : list (Z * list byte))
    (rs : list ReadResult) (audio : list byte) :
  Forall (fun chunk => 0 <= fst chunk < 2 ^ 31) chunks ->
  receiveLoop (audioReads chunks ++ rs) audio =
  (fst (receiveLoop rs (audio ++ List.concat (map snd chunks))),
   repeat NetReadMessage (List.length chunks)
   ++ snd (receiveLoop rs (audio ++ List.concat (map snd chunks)))).
Proof.
  intros F. revert audio.
  induction F as [|[sequenceNumber audioBytes] chunks Hs F IH]; intros audio.
  - cbn [audioReads map List.concat app List.length repeat].
    rewrite app_nil_r. now destruct (receiveLoop rs audio).
  - cbn [fst] in Hs.
    cbn [audioReads map List.concat app List.length repeat fst snd].
    rewrite receiveLoop_message, parse_audioFrame by lia.
    cbn [IsLast Audio].
    rewrite (proj2 (Z.ltb_ge _ _)) by lia.
    change (map (fun chunk => ReadMessage (audioFrame (fst chunk) (snd chunk)))
              chunks) with (audioReads chunks).
    rewrite IH, app_assoc. reflexivity.
Qed.

(** The operations of the loop are reads, one per result consumed and one
    more when it is left waiting. *)
Lemma receiveLoop_ops (rs : list ReadResult) (audio : list byte) :
  exists n,
    snd (receiveLoop rs audio) = repeat NetReadMessage (S n) /\
    (n <= List.length rs)%nat /\
    (fst (receiveLoop rs audio) = None -> n = List.length rs) /\
    (fst (receiveLoop rs audio) <> None -> (n < List.length rs)%nat).
Proof.
  revert audio. induction rs as [|r rs IH]; intros audio.
  - exists 0%nat. cbn. repeat split; auto. congruence.
  - destruct r as [message|err].
    + rewrite receiveLoop_message.
      destruct (parseByteDanceResponse message) as [resp [e|]].
      * exists 0%nat. cbn. repeat split; try lia; congruence.
      * destruct (IsLast resp).
        -- exists 0%nat. cbn. repeat split; try lia; congruence.
        -- destruct (IH (audio ++ Audio resp)) as (n & E & Hn & Hw & Hr).
           exists (S n). cbn [fst snd List.length]. rewrite E.
           repeat split; try lia.
           ++ intros N. specialize (Hw N). lia.
           ++ intros N. specialize (Hr N). lia.
    + exists 0%nat. cbn [receiveLoop].
      destruct ((0 <? List.length audio)%nat
                && IsUnexpectedCloseError err
                     [CloseGoingAway; CloseAbnormalClosure]);
        cbn; repeat split; try lia; congruence.
Qed.


(** X15. When a read fails after a run of audio frames, the audio
    received is returned only if it is not empty and the failure is a
    close error with a code other than 1001 and 1006; a failure of any
    other kind (a timeout, a reset), a close with code 1001 or 1006, or a
    failure before any audio gives ErrMessageReadFailed and the audio is
    dropped. *)
Theorem read_failure_after_audio (chunks : list (Z * list byte))
    (err : ReadError) (rest : list ReadResult) :
  Forall (fun chunk => 0 <= fst chunk < 2 ^ 31) chunks ->
  let received := List.concat (map snd chunks) in
  let result := fst (receiveLoop (audioReads chunks ++ ReadFails err :: rest) []) in
  (forall code text,
     err = CloseError code text -> received <> [] ->
     code <> 1001 -> code <> 1006 ->
     result = Some (Returns received)) /\
  (received = [] -> result = Some (Fails (ErrMessageReadFailed err))) /\
  (forall code text,
     err = CloseError code text -> code = 1001 \/ code = 1006 ->
     result = Some (Fails (ErrMessageReadFailed err))) /\
  (forall msg,
     err = OtherReadError msg ->
     result = Some (Fails (ErrMessageReadFailed err))).
Proof.
  intros F. cbv zeta.
  rewrite (receiveLoop_chunks chunks _ [] F).
  rewrite receiveLoop_read_fails. cbn [fst app].
  split; [|split; [|split]].
  - intros code text -> Hne H1 H6.
    destruct (List.concat (map snd chunks)) as [|b received]; [congruence|].
    rewrite (proj2 (Z.eqb_neq _ _) H1), (proj2 (Z.eqb_neq _ _) H6).
    reflexivity.
  - intros ->. reflexivity.
  - intros code text -> Hc.
    destruct (List.concat (map snd chunks)) as [|b received]; [reflexivity|].
    destruct Hc as [-> | ->]; reflexivity.
  - intros msg ->.
    destruct (List.concat (map snd chunks)); reflexivity.
Qed.

(** X16. A message the decoder rejects ends the call with
    ErrResponseParseFailed, whatever audio had been received before it:
    in particular an error frame of the server after a run of audio frames
    discards their audio. *)
Theorem rejected_message_discards_audio (chunks : list (Z * list byte))
    (message : list byte) (cause : ParseError) (rest : list ReadResult)
    (audio : list byte) :
  Forall (fun chunk => 0 <= fst chunk < 2 ^ 31) chunks ->
  snd (parseByteDanceResponse message) = Some cause ->
  receiveLoop (audioReads chunks ++ ReadMessage message :: rest) audio
  = (Some (Fails (ErrResponseParseFailed cause)),
     repeat NetReadMessage (S (List.length chunks))).
Proof.
  intros F Hp.
  rewrite (receiveLoop_chunks chunks _ audio F).
  rewrite receiveLoop_message.
  destruct (parseByteDanceResponse message) as [resp e].
  cbn [snd] in Hp. subst e. cbn [fst snd].
  now rewrite <- repeat_cons.
Qed.

(** X17. Acknowledgements (audio frames with flags 0) and frontend
    messages with at least 4 bytes of payload carry no audio and do not end
    the call: the loop reads on with the audio it had. *)
Theorem frames_without_audio_are_skipped (message : list byte)
    (rs : list ReadResult) (audio : list byte) :
  (4 <= List.length message)%nat ->
  4 * Z.land (index message 0) 0x0f <= Z.of_nat (List.length message) ->
  let payload := skipn (Z.to_nat (4 * Z.land (index message 0) 0x0f)) message in
  (Z.shiftr (index message 1) 4 = 0xb /\ Z.land (index message 1) 0x0f = 0) \/
  (Z.shiftr (index message 1) 4 = 0xc /\ (4 <= List.length payload)%nat) ->
  receiveLoop (ReadMessage message :: rs) audio
  = (fst (receiveLoop rs audio), NetReadMessage :: snd (receiveLoop rs audio)).
Proof.
  intros H4 Hh. cbv zeta. intros Hcase.
  rewrite receiveLoop_message, (parse_dispatch message H4 Hh).
  assert (E : dispatchMessage (Z.shiftr (index message 1) 4)
                (Z.land (index message 1) 0x0f) (Z.land (index message 2) 0x0f)
                (skipn (Z.to_nat (4 * Z.land (index message 0) 0x0f)) message)
              = (zeroSynthResp, None)).
  { unfold dispatchMessage. destruct Hcase as [[-> ->] | [-> Hl]].
    - reflexivity.
    - cbn [Z.eqb Pos.eqb]. now rewrite (proj2 (Nat.ltb_ge _ _) Hl). }
  rewrite E. cbn [IsLast Audio zeroSynthResp]. now rewrite app_nil_r.
Qed.

(** X18. A call that returns leaves the semaphore and the registry as it
    found them, whether it was refused, failed or returned audio; while it
    is waiting for the upstream it holds one slot of the semaphore and
    counts as one call in flight. *)
Theorem call_restores_globals (appConfig : Config) (up : Upstream)
    (reqID : string) (g : Globals) (text voiceType : string)
    (speed : float) :
  0 <= currentCalls (GlobalMetrics g) < int64_max ->
  let out := streamSynthesize appConfig up reqID g text voiceType speed in
  (fst (fst out) <> None -> snd out = g) /\
  (fst (fst out) = None ->
   semaphore (snd out) = S (semaphore g) /\
   Z.of_nat (semaphore (snd out)) <= MaxConcurrentCalls appConfig /\
   currentCalls (GlobalMetrics (snd out))
   = currentCalls (GlobalMetrics g) + 1).
Proof.
  intros Hc. cbv zeta. unfold streamSynthesize.
  destruct (Z.ltb_spec (Z.of_nat (semaphore g)) (MaxConcurrentCalls appConfig))
    as [Hlt|Hge].
  - rewrite (acquire_admits appConfig g Hlt). cbn [fst snd].
    destruct (fst (synthesizeAdmitted appConfig up reqID text speed)) as [r|].
    + split; [|congruence]. intros _. now apply release_acquired.
    + split; [congruence|]. intros _. cbn [semaphore GlobalMetrics].
      split; [reflexivity|]. split; [lia|].
      unfold IncCurrentCalls. cbn [currentCalls set_currentCalls].
      apply wrap64_small. unfold in_int64, int64_min, int64_max in *. lia.
  - rewrite (acquire_refuses appConfig g Hge). cbn [fst snd].
    split; [reflexivity|congruence].
Qed.

(** X19. The connection is used in one way only.  A call that returns has
    performed no network operation (refused, text too long, marshalling
    failed), or a single failed dial, or a dial, one write of the request
    frame, at least zero reads and then exactly one close, which comes
    last; a call still waiting has dialled, written once and read, and has
    not closed. *)
Theorem connection_discipline (appConfig : Config) (up : Upstream)
    (reqID : string) (g : Globals) (text voiceType : string)
    (speed : float) :
  let out := fst (streamSynthesize appConfig up reqID g text voiceType speed) in
  (fst out <> None ->
   snd out = [] \/
   (snd out = [NetDial] /\ dial_fails up = true) \/
   exists request n,
     (n <= List.length (reads up))%nat /\
     snd out = NetDial :: NetWriteMessage request
                 :: repeat NetReadMessage n ++ [NetClose]) /\
  (fst out = None ->
   exists request,
     snd out = NetDial :: NetWriteMessage request
                 :: repeat NetReadMessage (S (List.length (reads up)))).
Proof.
  cbv zeta. unfold streamSynthesize.
  destruct (acquire appConfig g) as [g1|err]; cbn [fst snd].
  2:{ split; [now left|congruence]. }
  unfold synthesizeAdmitted.
  destruct (setupByteDanceInput appConfig reqID text optSubmit speed)
    as [input|err]; cbn [fst snd].
  2:{ split; [now left|congruence]. }
  destruct (dial_fails up) eqn:Ed; cbn [fst snd].
  { split; [right; left; now split|congruence]. }
  destruct (write_fails up); cbn [fst snd].
  { split; [|congruence]. intros _. right; right.
    exists (clientRequest (gzipCompress input)), 0%nat.
    split; [lia|reflexivity]. }
  destruct (receiveLoop_ops (reads up) []) as (n & E & Hn & Hw & Hr).
  destruct (receiveLoop (reads up) []) as [r ops]. cbn [fst snd] in *.
  subst ops. split.
  - intros N. right; right.
    exists (clientRequest (gzipCompress input)), (S n).
    split; [specialize (Hr N); lia|].
    destruct r; [reflexivity|congruence].
  - intros ->. exists (clientRequest (gzipCompress input)).
    rewrite (Hw eq_refl). now rewrite app_nil_r.
Qed.

End Relay.


Lemma read_failure_after_audio_witness :
  fst (@receiveLoop sample_libraries
         (audioReads [(1, [Byte.x41])]
          ++ ReadFails (CloseError 1011 "internal error") :: []) [])
  = Some (Returns [Byte.x41]).
Proof.
  exact (proj1 (@read_failure_after_audio sample_libraries
                  [(1, [Byte.x41])] (CloseError 1011 "internal error") []
                  ltac:(repeat constructor; cbn; lia))
           1011 "internal error"%string eq_refl
           ltac:(discriminate) ltac:(discriminate) ltac:(discriminate)).
Defined.

Lemma rejected_message_discards_audio_witness :
  @receiveLoop sample_libraries
    (audioReads [(1, [Byte.x41])]
     ++ ReadMessage [Byte.x11; Byte.xf0; Byte.x10; Byte.x00;
                     Byte.x00; Byte.x00; Byte.x0b; Byte.xb8;
                     Byte.x00; Byte.x00; Byte.x00; Byte.x02;
                     Byte.x6e; Byte.x6f] :: []) []
  = (Some (Fails (ErrResponseParseFailed
                    (ServerError 3000 [Byte.x6e; Byte.x6f]))),
     [NetReadMessage; NetReadMessage]).
Proof.
  exact (@rejected_message_discards_audio sample_libraries
           [(1, [Byte.x41])]
           [Byte.x11; Byte.xf0; Byte.x10; Byte.x00;
            Byte.x00; Byte.x00; Byte.x0b; Byte.xb8;
            Byte.x00; Byte.x00; Byte.x00; Byte.x02;
            Byte.x6e; Byte.x6f]
           (ServerError 3000 [Byte.x6e; Byte.x6f]) [] []
           ltac:(repeat constructor; cbn; lia)
           ltac:(vm_compute; reflexivity)).
Defined.

Lemma frames_without_audio_are_skipped_witness :
  @receiveLoop sample_libraries
    (ReadMessage [Byte.x11; Byte.xb0; Byte.x10; Byte.x00]
     :: [ReadMessage (audioFrame (-1) [Byte.x41])]) []
  = (Some (Returns [Byte.x41]), [NetReadMessage; NetReadMessage]).
Proof.
  exact (@frames_without_audio_are_skipped sample_libraries
           [Byte.x11; Byte.xb0; Byte.x10; Byte.x00]
           [ReadMessage (audioFrame (-1) [Byte.x41])] []
           ltac:(vm_compute; lia) ltac:(vm_compute; discriminate)
           ltac:(left; split; vm_compute; reflexivity)).
Defined.

Lemma call_restores_globals_witness :
  snd (@streamSynthesize sample_libraries sample_config
         {| dial_fails := false; write_fails := false;
            reads := [ReadMessage (audioFrame (-1) [Byte.x41])] |}
         "req-1" (sample_globals 1) "hello" "alloy" 1%float)
  = sample_globals 1.
Proof.
  exact (proj1 (@call_restores_globals sample_libraries sample_config
                  {| dial_fails := false; write_fails := false;
                     reads := [ReadMessage (audioFrame (-1) [Byte.x41])] |}
                  "req-1" (sample_globals 1) "hello" "alloy" 1%float
                  ltac:(vm_compute; split; [discriminate|reflexivity]))
           ltac:(vm_compute; discriminate)).
Defined.

Lemma connection_discipline_witness :
  exists request,
    snd (fst (@streamSynthesize sample_libraries sample_config
                {| dial_fails := false; write_fails := false; reads := [] |}
                "req-1" (sample_globals 0) "hello" "alloy" 1%float))
    = NetDial :: NetWriteMessage request :: repeat NetReadMessage 1.
Proof.
  exact (proj2 (@connection_discipline sample_libraries sample_config
                  {| dial_fails := false; write_fails := false; reads := [] |}
                  "req-1" (sample_globals 0) "hello" "alloy" 1%float)
           ltac:(vm_compute; reflexivity)).
Defined.

End RelayExtras.

(** ** The whole request handler *)

Module HandlerExtras.

Import MetricsGo MainGo CodecProofs RelayProofs HandlerProofs RelayExtras.

Lemma dec_record_request (m : Metrics) (success : bool) (ms : Z) :
  0 <= activeConnections m < int64_max ->
  DecActiveConnections (RecordRequest (IncActiveConnections m) success ms)
  = RecordRequest m success ms.
Proof.
  unfold int64_max. intros H.
  destruct m as [rc sc ec ac cc tot es]. cbn [activeConnections] in H.
  unfold DecActiveConnections, RecordRequest, IncActiveConnections,
    set_activeConnections.
  cbn [activeConnections currentCalls requestCount successCount errorCount
       totalResponseTime errors].
  rewrite (wrap64_small (ac + 1))
    by (unfold in_int64, int64_min, int64_max; lia).
  rewrite (proj2 (Z.ltb_lt 0 (ac + 1))) by lia.
  rewrite (wrap64_small (ac + 1 - 1))
    by (unfold in_int64, int64_min, int64_max; lia).
  f_equal. lia.
Qed.

Lemma dec_record_error (m : Metrics) (ms : Z) (now errorType message : string) :
  0 <= activeConnections m < int64_max ->
  DecActiveConnections
    (RecordError (RecordRequest (IncActiveConnections m) false ms)
       now errorType message)
  = RecordError (RecordRequest m false ms) now errorType message.
Proof.
  unfold int64_max. intros H.
  destruct m as [rc sc ec ac cc tot es]. cbn [activeConnections] in H.
  unfold DecActiveConnections, RecordError, RecordRequest,
    IncActiveConnections, set_activeConnections.
  cbn [activeConnections currentCalls requestCount successCount errorCount
       totalResponseTime errors].
  rewrite (wrap64_small (ac + 1))
    by (unfold in_int64, int64_min, int64_max; lia).
  rewrite (proj2 (Z.ltb_lt 0 (ac + 1))) by lia.
  rewrite (wrap64_small (ac + 1 - 1))
    by (unfold in_int64, int64_min, int64_max; lia).
  f_equal. lia.
Qed.

Lemma inc_activeConnections_value (m : Metrics) :
  0 <= activeConnections m < int64_max ->
  activeConnections (IncActiveConnections m) = activeConnections m + 1.
Proof.
  unfold int64_max. intros H. unfold IncActiveConnections.
  cbn [activeConnections set_activeConnections].
  apply wrap64_small. unfold in_int64, int64_min, int64_max. lia.
Qed.

(** What the checks of the handler have established when it calls
    [streamSynthesize]. *)
Lemma handler_calls_checked (appConfig : Config) (m : Metrics)
    (c : HTTPRequest) (text voice : string) (s : float) :
  handleOpenAITTSRequest appConfig m c = CallStreamSynthesize text voice s ->
  activeConnections (IncActiveConnections m) <= MaxConnections appConfig /\
  isValidAPIKey (presentedKey c) = true /\
  (OpenAITTSAPIKey appConfig = ""%string \/
   presentedKey c = OpenAITTSAPIKey appConfig) /\
  exists req,
    boundJSON c = Some req /\ Input req <> ""%string /\
    Voice req <> ""%string /\
    checkSpeedAndCall req = CallStreamSynthesize text voice s.
Proof.
  unfold handleOpenAITTSRequest. fold (presentedKey c).
  destruct (Z.ltb_spec (MaxConnections appConfig)
              (activeConnections (IncActiveConnections m))) as [|Hc];
    [discriminate|].
  destruct (isValidAPIKey (presentedKey c)) eqn:Ek; [|discriminate].
  cbn [negb].
  destruct (String.eqb_spec (OpenAITTSAPIKey appConfig) "") as [E0|N0];
    destruct (String.eqb_spec (presentedKey c) (OpenAITTSAPIKey appConfig))
      as [E1|N1]; cbn [negb andb]; try discriminate;
    (destruct (boundJSON c) as [req|]; [|discriminate]);
    (destruct (String.eqb_spec (Input req) "") as [|Ni]; [discriminate|]);
    (destruct (String.eqb_spec (Voice req) "") as [|Nv]; [discriminate|]);
    intros Hs; (split; [exact Hc|]); (split; [reflexivity|]);
    (split; [tauto|]); exists req; tauto.
Qed.

Section Handler.

Context {L : Libraries}.

Lemma streamSynthesize_returns (appConfig : Config) (up : Upstream)
    (reqID : string) (g : Globals) (text voiceType : string)
    (speed : float) :
  0 <= currentCalls (GlobalMetrics g) < int64_max ->
  fst (fst (streamSynthesize appConfig up reqID g text voiceType speed))
  <> None ->
  snd (streamSynthesize appConfig up reqID g text voiceType speed) = g.
Proof.
  intros Hc. unfold streamSynthesize.
  destruct (Z.ltb_spec (Z.of_nat (semaphore g)) (MaxConcurrentCalls appConfig))
    as [Hlt|Hge].
  - rewrite (acquire_admits appConfig g Hlt). cbn [fst snd].
    destruct (fst (synthesizeAdmitted appConfig up reqID text speed)) as [r|].
    + intros _. now apply release_acquired.
    + congruence.
  - now rewrite (acquire_refuses appConfig g Hge).
Qed.

(** The handler, by the step its checks reach and the result of the
    call. *)
Lemma serve_by_step (appConfig : Config) (w : Surroundings) (g : Globals)
    (c : HTTPRequest) :
  serveOpenAITTSRequest appConfig w g c =
  let m := IncActiveConnections (GlobalMetrics g) in
  match handleOpenAITTSRequest appConfig (GlobalMetrics g) c with
  | Respond statusCode errorType =>
      (Some (ErrorJSON statusCode errorType),
       {| semaphore := semaphore g;
          GlobalMetrics :=
            DecActiveConnections
              (if MaxConnections appConfig <? activeConnections m
               then RecordError (RecordRequest m false (sinceStartMs w))
                      (timestamp w) "connection_limit" (limitText w)
               else m) |})
  | CallStreamSynthesize text voice speed =>
      let out :=
        streamSynthesize appConfig (upstream w) (requestID w)
          {| semaphore := semaphore g; GlobalMetrics := m |}
          text voice speed in
      match fst (fst out) with
      | None => (None, snd out)
      | Some (Fails err) =>
          (Some (ErrorJSON (fst (statusOf err)) (snd (statusOf err))),
           {| semaphore := semaphore (snd out);
              GlobalMetrics :=
                DecActiveConnections
                  (RecordError
                     (RecordRequest (GlobalMetrics (snd out)) false
                        (sinceStartMs w))
                     (timestamp w) (snd (statusOf err)) (errorText w err)) |})
      | Some (Returns audioData) =>
          if clientWriteFails w
          then (Some AudioWriteFailed,
                {| semaphore := semaphore (snd out);
                   GlobalMetrics :=
                     DecActiveConnections (GlobalMetrics (snd out)) |})
          else (Some (AudioBody audioData),
                {| semaphore := semaphore (snd out);
                   GlobalMetrics :=
                     DecActiveConnections
                       (RecordRequest (GlobalMetrics (snd out)) true
                          (sinceStartMs w)) |})
      end
  end.
Proof.
  unfold serveOpenAITTSRequest, handleOpenAITTSRequest. cbv zeta.
  destruct (MaxConnections appConfig
            <? activeConnections (IncActiveConnections (GlobalMetrics g)));
    [reflexivity|].
  destruct (negb (isValidAPIKey _)); [reflexivity|].
  destruct (negb (String.eqb (OpenAITTSAPIKey appConfig) "") && _);
    [reflexivity|].
  destruct (boundJSON c) as [req|]; [|reflexivity].
  destruct (String.eqb (Input req) ""); [reflexivity|].
  destruct (String.eqb (Voice req) ""); [reflexivity|].
  destruct (checkSpeedAndCall req) as [statusCode errorType|text voice speed];
    [reflexivity|].
  destruct (streamSynthesize _ _ _ _ _ _ _) as [[result ops] g1].
  cbn [fst snd].
  destruct result as [[audioData|err]|]; [reflexivity| |reflexivity].
  now destruct (statusOf err).
Qed.

Lemma streamSynthesize_pending (appConfig : Config) (up : Upstream)
    (reqID : string) (g : Globals) (text voiceType : string)
    (speed : float) :
  fst (fst (streamSynthesize appConfig up reqID g text voiceType speed))
  = None ->
  snd (streamSynthesize appConfig up reqID g text voiceType speed)
  = {| semaphore := S (semaphore g);
       GlobalMetrics := IncCurrentCalls (GlobalMetrics g) |}.
Proof.
  unfold streamSynthesize.
  destruct (Z.ltb_spec (Z.of_nat (semaphore g)) (MaxConcurrentCalls appConfig))
    as [Hlt|Hge].
  - rewrite (acquire_admits appConfig g Hlt). cbn [fst snd].
    now intros ->.
  - rewrite (acquire_refuses appConfig g Hge). discriminate.
Qed.

Lemma streamSynthesize_audio_fits (appConfig : Config) (up : Upstream)
    (reqID : string) (g : Globals) (text voiceType : string)
    (speed : float) (audioData : list byte) :
  fst (fst (streamSynthesize appConfig up reqID g text voiceType speed))
  = Some (Returns audioData) ->
  Z.of_nat (String.length text) <= MaxTextLength appConfig.
Proof.
  unfold streamSynthesize.
  destruct (acquire appConfig g) as [g1|err]; [|discriminate].
  cbn [fst]. unfold synthesizeAdmitted, setupByteDanceInput.
  destruct (Z.ltb_spec (MaxTextLength appConfig)
              (Z.of_nat (String.length text))) as [|Hle]; [discriminate|].
  intros _. exact Hle.
Qed.

(** The statuses of the answers that follow no call. *)
Lemma handler_respond_status (appConfig : Config) (m : Metrics)
    (c : HTTPRequest) (statusCode : Z) (errorType : string) :
  handleOpenAITTSRequest appConfig m c = Respond statusCode errorType ->
  ((MaxConnections appConfig <? activeConnections (IncActiveConnections m))
   = true /\ statusCode = StatusServiceUnavailable) \/
  ((MaxConnections appConfig <? activeConnections (IncActiveConnections m))
   = false /\
   (statusCode = StatusUnauthorized \/ statusCode = StatusBadRequest)).
Proof.
  unfold handleOpenAITTSRequest, checkSpeedAndCall.
  destruct (MaxConnections appConfig
            <? activeConnections (IncActiveConnections m)).
  { intros H. injection H as <- _. left. now split. }
  intros H. right. split; [reflexivity|]. revert H.
  repeat match goal with
         | |- context [if ?b then Respond _ _ else _] => destruct b
         | |- context [match boundJSON c with _ => _ end] =>
             destruct (boundJSON c)
         end;
    intros H; try discriminate; injection H as <- _; tauto.
Qed.

Lemma statusOf_not_unauthorized (err : Error) :
  fst (statusOf err) <> StatusUnauthorized.
Proof. destruct err; discriminate. Qed.

(** The globals a completed request leaves, by its answer. *)
Lemma serve_completed (appConfig : Config) (w : Surroundings) (g : Globals)
    (c : HTTPRequest) (resp : HTTPResponse) :
  0 <= activeConnections (GlobalMetrics g) < int64_max ->
  0 <= currentCalls (GlobalMetrics g) < int64_max ->
  fst (serveOpenAITTSRequest appConfig w g c) = Some resp ->
  exists m',
    snd (serveOpenAITTSRequest appConfig w g c)
    = {| semaphore := semaphore g; GlobalMetrics := m' |} /\
    match resp with
    | AudioBody _ =>
        m' = RecordRequest (GlobalMetrics g) true (sinceStartMs w)
    | AudioWriteFailed => m' = GlobalMetrics g
    | ErrorJSON statusCode _ =>
        (m' = GlobalMetrics g /\
         (statusCode = StatusUnauthorized \/ statusCode = StatusBadRequest))
        \/
        (statusCode <> StatusUnauthorized /\
         exists errorType message,
           m' = RecordError
                  (RecordRequest (GlobalMetrics g) false (sinceStartMs w))
                  (timestamp w) errorType message)
    end.
Proof.
  intros Ha Hc. rewrite serve_by_step. cbv zeta.
  destruct (handleOpenAITTSRequest appConfig (GlobalMetrics g) c)
    as [statusCode errorType|text voice speed] eqn:Eh.
  - cbn [fst snd]. intros H. injection H as <-.
    destruct (handler_respond_status _ _ _ _ _ Eh) as [[E ->]|[E Hs]];
      rewrite E.
    + eexists. split; [reflexivity|]. right. split; [discriminate|].
      rewrite dec_record_error by exact Ha. eauto.
    + eexists. split; [reflexivity|]. left.
      rewrite dec_inc_activeConnections by exact Ha. now split.
  - set (g0 := {| semaphore := semaphore g;
                  GlobalMetrics := IncActiveConnections (GlobalMetrics g) |}).
    pose proof (streamSynthesize_returns appConfig (upstream w) (requestID w)
                  g0 text voice speed Hc) as R.
    destruct (fst (fst (streamSynthesize appConfig (upstream w) (requestID w)
                          g0 text voice speed))) as [[audioData|err]|].
    + rewrite R by discriminate.
      destruct (clientWriteFails w); cbn [fst snd]; intros H;
        injection H as <-; eexists; (split; [reflexivity|]);
        cbn [g0 GlobalMetrics semaphore].
      * now apply dec_inc_activeConnections.
      * now apply dec_record_request.
    + rewrite R by discriminate. cbn [fst snd]. intros H. injection H as <-.
      eexists. split; [reflexivity|]. right.
      split; [apply statusOf_not_unauthorized|].
      cbn [g0 GlobalMetrics semaphore].
      rewrite dec_record_error by exact Ha. eauto.
    + discriminate.
Qed.

Lemma handler_passes (appConfig : Config) (m : Metrics) (c : HTTPRequest)
    (req : OpenAITTSRequest) :
  activeConnections (IncActiveConnections m) <= MaxConnections appConfig ->
  isValidAPIKey (presentedKey c) = true ->
  OpenAITTSAPIKey appConfig = ""%string \/
  presentedKey c = OpenAITTSAPIKey appConfig ->
  boundJSON c = Some req ->
  Input req <> ""%string -> Voice req <> ""%string ->
  PrimFloat.ltb (defaulted (Speed req)) 0.5 = false ->
  PrimFloat.ltb 2 (defaulted (Speed req)) = false ->
  handleOpenAITTSRequest appConfig m c =
  CallStreamSynthesize (Input req) (mapOpenAIVoiceToByteDance (Voice req))
    (defaulted (Speed req)).
Proof.
  intros Hc Hk Hm Hb Hi Hv H1 H2.
  unfold handleOpenAITTSRequest. fold (presentedKey c).
  rewrite (proj2 (Z.ltb_ge _ _) Hc), Hk, Hb.
  rewrite (proj2 (String.eqb_neq _ _) Hi), (proj2 (String.eqb_neq _ _) Hv).
  cbn [negb].
  assert (E : negb (String.eqb (OpenAITTSAPIKey appConfig) "")
              && negb (String.eqb (presentedKey c) (OpenAITTSAPIKey appConfig))
              = false).
  { destruct Hm as [-> | ->]; [reflexivity|].
    rewrite String.eqb_refl. cbn [negb]. apply andb_false_r. }
  rewrite E. unfold checkSpeedAndCall. fold (defaulted (Speed req)).
  now rewrite H1, H2.
Qed.

Lemma receiveLoop_stream (chunks : list (Z * list byte))
    (lastSequence : Z) (lastAudio : list byte) (rest : list ReadResult) :
  Forall (fun chunk => 0 <= fst chunk < 2 ^ 31) chunks ->
  - 2 ^ 31 <= lastSequence < 0 ->
  fst (receiveLoop
         (audioReads chunks
          ++ ReadMessage (audioFrame lastSequence lastAudio) :: rest) [])
  = Some (Returns (List.concat (map snd chunks) ++ lastAudio)).
Proof.
  intros F Hl.
  rewrite (receiveLoop_chunks chunks _ [] F).
  rewrite receiveLoop_message, parse_audioFrame by lia.
  cbn [IsLast Audio]. rewrite (proj2 (Z.ltb_lt _ _)) by lia.
  reflexivity.
Qed.

(** The answer to a call that fails, and what is recorded of it. *)
Lemma serve_failed (appConfig : Config) (w : Surroundings) (g : Globals)
    (c : HTTPRequest) (text voice : string) (speed : float) (err : Error) :
  0 <= activeConnections (GlobalMetrics g) < int64_max ->
  0 <= currentCalls (GlobalMetrics g) < int64_max ->
  handleOpenAITTSRequest appConfig (GlobalMetrics g) c
  = CallStreamSynthesize text voice speed ->
  fst (fst (streamSynthesize appConfig (upstream w) (requestID w)
              {| semaphore := semaphore g;
                 GlobalMetrics := IncActiveConnections (GlobalMetrics g) |}
              text voice speed)) = Some (Fails err) ->
  serveOpenAITTSRequest appConfig w g c =
  (Some (ErrorJSON (fst (statusOf err)) (snd (statusOf err))),
   {| semaphore := semaphore g;
      GlobalMetrics :=
        RecordError (RecordRequest (GlobalMetrics g) false (sinceStartMs w))
          (timestamp w) (snd (statusOf err)) (errorText w err) |}).
Proof.
  intros Ha Hc Eh Es. rewrite serve_by_step, Eh. cbv zeta.
  set (g0 := {| semaphore := semaphore g;
                GlobalMetrics := IncActiveConnections (GlobalMetrics g) |})
    in *.
  rewrite Es.
  rewrite (streamSynthesize_returns appConfig (upstream w) (requestID w) g0
             text voice speed Hc) by (rewrite Es; discriminate).
  cbn [g0 semaphore GlobalMetrics].
  now rewrite dec_record_error by exact Ha.
Qed.

(** X20. Audio is sent only in answer to a request whose key passed the
    checks: a key of legal characters that equals the configured key when
    one is configured, a body that binds, a non-empty input no longer than
    MaxTextLength, a non-empty voice and a speed (1.0 for zero) that is
    neither below 0.5 nor above 2.0. *)
Theorem audio_only_when_authorised (appConfig : Config) (w : Surroundings)
    (g : Globals) (c : HTTPRequest) (audioData : list byte) :
  fst (serveOpenAITTSRequest appConfig w g c) = Some (AudioBody audioData) ->
  isValidAPIKey (presentedKey c) = true /\
  (OpenAITTSAPIKey appConfig = ""%string \/
   presentedKey c = OpenAITTSAPIKey appConfig) /\
  exists req,
    boundJSON c = Some req /\
    Input req <> ""%string /\ Voice req <> ""%string /\
    Z.of_nat (String.length (Input req)) <= MaxTextLength appConfig /\
    PrimFloat.ltb (defaulted (Speed req)) 0.5 = false /\
    PrimFloat.ltb 2 (defaulted (Speed req)) = false.
Proof.
  rewrite serve_by_step. cbv zeta.
  destruct (handleOpenAITTSRequest appConfig (GlobalMetrics g) c)
    as [statusCode errorType|text voice speed] eqn:Eh; [discriminate|].
  destruct (handler_calls_checked _ _ _ _ _ _ Eh)
    as (_ & Hk & Hm & req & Hb & Hi & Hv & Hs).
  destruct (checkSpeedAndCall_calls _ _ _ _ Hs) as (-> & -> & H1 & H2).
  destruct (fst (fst (streamSynthesize _ _ _ _ _ _ _)))
    as [[audio'|err]|] eqn:Es; [|discriminate|discriminate].
  intros _. apply streamSynthesize_audio_fits in Es.
  split; [exact Hk|]. split; [exact Hm|].
  exists req. tauto.
Qed.

(** X21. A request that has been answered leaves the semaphore, the
    active connections and the calls in flight as it found them, whatever
    the answer; a request still waiting for the upstream counts as one
    active connection and one call in flight and holds one slot. *)
Theorem handler_restores_gauges (appConfig : Config) (w : Surroundings)
    (g : Globals) (c : HTTPRequest) :
  0 <= activeConnections (GlobalMetrics g) < int64_max ->
  0 <= currentCalls (GlobalMetrics g) < int64_max ->
  let out := serveOpenAITTSRequest appConfig w g c in
  (fst out <> None ->
   semaphore (snd out) = semaphore g /\
   activeConnections (GlobalMetrics (snd out))
   = activeConnections (GlobalMetrics g) /\
   currentCalls (GlobalMetrics (snd out)) = currentCalls (GlobalMetrics g)) /\
  (fst out = None ->
   semaphore (snd out) = S (semaphore g) /\
   activeConnections (GlobalMetrics (snd out))
   = activeConnections (GlobalMetrics g) + 1 /\
   currentCalls (GlobalMetrics (snd out))
   = currentCalls (GlobalMetrics g) + 1).
Proof.
  intros Ha Hc. cbv zeta. split.
  - destruct (fst (serveOpenAITTSRequest appConfig w g c)) as [resp|] eqn:E;
      [|congruence].
    intros _.
    destruct (serve_completed appConfig w g c resp Ha Hc E) as (m' & -> & Hm).
    cbn [semaphore GlobalMetrics]. split; [reflexivity|].
    destruct resp as [statusCode errorType|audioData|].
    + destruct Hm as [[-> _]|[_ (ty & msg & ->)]]; split; reflexivity.
    + subst m'. split; reflexivity.
    + subst m'. split; reflexivity.
  - rewrite serve_by_step. cbv zeta.
    destruct (handleOpenAITTSRequest appConfig (GlobalMetrics g) c)
      as [statusCode errorType|text voice speed]; [discriminate|].
    destruct (fst (fst (streamSynthesize _ _ _ _ _ _ _)))
      as [[audio'|err]|] eqn:Es.
    + destruct (clientWriteFails w); discriminate.
    + discriminate.
    + intros _. cbn [snd]. rewrite (streamSynthesize_pending _ _ _ _ _ _ _ Es).
      cbn [semaphore GlobalMetrics]. split; [reflexivity|].
      unfold IncCurrentCalls.
      cbn [activeConnections currentCalls set_currentCalls].
      split.
      * now apply inc_activeConnections_value.
      * unfold IncActiveConnections. cbn [currentCalls set_activeConnections].
        apply wrap64_small. unfold in_int64, int64_min, int64_max in *. lia.
Qed.

(** X22. What the registry keeps of an answered request.  The success
    counter goes up by one exactly when audio has been written to the
    client.  An answer with status 401 leaves the registry as it was, and
    so does a request whose audio could not be written to the client: they
    are counted neither as requests nor as errors. *)
Theorem handler_accounting (appConfig : Config) (w : Surroundings)
    (g : Globals) (c : HTTPRequest) (resp : HTTPResponse) :
  0 <= activeConnections (GlobalMetrics g) < int64_max ->
  0 <= currentCalls (GlobalMetrics g) < int64_max ->
  fst (serveOpenAITTSRequest appConfig w g c) = Some resp ->
  let after := snd (serveOpenAITTSRequest appConfig w g c) in
  successCount (GlobalMetrics after)
  = match resp with
    | AudioBody _ => wrap64 (successCount (GlobalMetrics g) + 1)
    | _ => successCount (GlobalMetrics g)
    end /\
  (resp = AudioWriteFailed -> after = g) /\
  (forall errorType,
     resp = ErrorJSON StatusUnauthorized errorType -> after = g) /\
  (forall audioData,
     resp = AudioBody audioData ->
     requestCount (GlobalMetrics after)
     = wrap64 (requestCount (GlobalMetrics g) + 1) /\
     errorCount (GlobalMetrics after) = errorCount (GlobalMetrics g) /\
     errors (GlobalMetrics after) = errors (GlobalMetrics g)).
Proof.
  intros Ha Hc E. cbv zeta.
  destruct (serve_completed appConfig w g c resp Ha Hc E) as (m' & -> & Hm).
  cbn [semaphore GlobalMetrics].
  destruct resp as [statusCode errorType|audioData|].
  - split; [|split; [discriminate|split; [|discriminate]]].
    + destruct Hm as [[-> _]|[_ (ty & msg & ->)]]; reflexivity.
    + intros ty H. injection H as -> _.
      destruct Hm as [[-> _]|[N _]]; [now destruct g|congruence].
  - subst m'. split; [reflexivity|].
    split; [discriminate|]. split; [discriminate|].
    intros a _. repeat split; reflexivity.
  - subst m'. split; [reflexivity|].
    split; [intros _; now destruct g|].
    split; discriminate.
Qed.


(** X24. Failed authentication.  Under the connection limit, a request
    with no Authorization header, or whose key is empty or holds an illegal
    character, is answered 401 invalid_api_key, also when no key is
    configured on the server; a well-formed key that differs from the
    configured one is answered 401 unauthorized.  In both cases the
    registry and the semaphore are left as they were. *)
Theorem authentication_failures (appConfig : Config) (w : Surroundings)
    (g : Globals) (c : HTTPRequest) :
  0 <= activeConnections (GlobalMetrics g) < MaxConnections appConfig ->
  MaxConnections appConfig <= int64_max ->
  (Authorization c = ""%string \/ isValidAPIKey (presentedKey c) = false ->
   serveOpenAITTSRequest appConfig w g c
   = (Some (ErrorJSON StatusUnauthorized "invalid_api_key"), g)) /\
  (isValidAPIKey (presentedKey c) = true ->
   OpenAITTSAPIKey appConfig <> ""%string ->
   presentedKey c <> OpenAITTSAPIKey appConfig ->
   serveOpenAITTSRequest appConfig w g c
   = (Some (ErrorJSON StatusUnauthorized "unauthorized"), g)).
Proof.
  intros Ha Hmax.
  assert (Ha' : 0 <= activeConnections (GlobalMetrics g) < int64_max) by lia.
  assert (Hin : (MaxConnections appConfig
                 <? activeConnections (IncActiveConnections (GlobalMetrics g)))
                = false).
  { rewrite inc_activeConnections_value by exact Ha'.
    apply Z.ltb_ge. lia. }
  unfold serveOpenAITTSRequest. cbv zeta. fold (presentedKey c).
  rewrite Hin, (dec_inc_activeConnections _ Ha').
  split.
  - intros Hk.
    assert (E : isValidAPIKey (presentedKey c) = false).
    { destruct Hk as [He|Hk]; [|exact Hk].
      unfold presentedKey. rewrite He. reflexivity. }
    rewrite E. cbn [negb]. now destruct g.
  - intros Hk Hn Hd. rewrite Hk. cbn [negb].
    rewrite (proj2 (String.eqb_neq _ _) Hn), (proj2 (String.eqb_neq _ _) Hd).
    cbn [negb andb]. now destruct g.
Qed.

(** X25. How a failed call is answered, for a request that has passed
    the checks of the handler.  A full semaphore gives 503
    service_overloaded, before the length of the text is looked at; with
    room in the semaphore a text over MaxTextLength gives 400
    invalid_request; then a failed dial gives 503
    upstream_service_unavailable and a failed write 500 internal_error.
    Each is recorded as one failed request with one error record of the
    answer's type. *)
Theorem failed_call_status (appConfig : Config) (w : Surroundings)
    (g : Globals) (c : HTTPRequest) (text voice : string) (speed : float)
    (document : list byte) :
  0 <= activeConnections (GlobalMetrics g) < int64_max ->
  0 <= currentCalls (GlobalMetrics g) < int64_max ->
  handleOpenAITTSRequest appConfig (GlobalMetrics g) c
  = CallStreamSynthesize text voice speed ->
  let answers statusCode errorType err :=
    serveOpenAITTSRequest appConfig w g c
    = (Some (ErrorJSON statusCode errorType),
       {| semaphore := semaphore g;
          GlobalMetrics :=
            RecordError
              (RecordRequest (GlobalMetrics g) false (sinceStartMs w))
              (timestamp w) errorType (errorText w err) |}) in
  (MaxConcurrentCalls appConfig <= Z.of_nat (semaphore g) ->
   answers StatusServiceUnavailable "service_overloaded"%string
     (ErrTooManyConnections (MaxConcurrentCalls appConfig))) /\
  (Z.of_nat (semaphore g) < MaxConcurrentCalls appConfig ->
   MaxTextLength appConfig < Z.of_nat (String.length text) ->
   answers StatusBadRequest "invalid_request"%string
     (ErrTextTooLong (Z.of_nat (String.length text))
        (MaxTextLength appConfig))) /\
  (Z.of_nat (semaphore g) < MaxConcurrentCalls appConfig ->
   Z.of_nat (String.length text) <= MaxTextLength appConfig ->
   json_Marshal (requestParams appConfig (requestID w) text optSubmit speed)
   = Some document ->
   (dial_fails (upstream w) = true ->
    answers StatusServiceUnavailable "upstream_service_unavailable"%string
      ErrWebSocketDialFailed) /\
   (dial_fails (upstream w) = false -> write_fails (upstream w) = true ->
    answers StatusInternalServerError "internal_error"%string
      ErrMessageWriteFailed)).
Proof.
  intros Ha Hc Eh. cbv zeta.
  set (g0 := {| semaphore := semaphore g;
                GlobalMetrics := IncActiveConnections (GlobalMetrics g) |}).
  split; [|split].
  - intros Hfull.
    apply (serve_failed appConfig w g c text voice speed
             (ErrTooManyConnections (MaxConcurrentCalls appConfig)) Ha Hc Eh).
    unfold streamSynthesize. fold g0.
    now rewrite (acquire_refuses appConfig g0) by exact Hfull.
  - intros Hroom Hlong.
    apply (serve_failed appConfig w g c text voice speed
             (ErrTextTooLong (Z.of_nat (String.length text))
             (MaxTextLength appConfig)) Ha Hc Eh).
    unfold streamSynthesize. fold g0.
    rewrite (acquire_admits appConfig g0) by exact Hroom.
    cbn [fst]. unfold synthesizeAdmitted.
    now rewrite setup_too_long by exact Hlong.
  - intros Hroom Hfit Hj. split.
    + intros Hd.
      apply (serve_failed appConfig w g c text voice speed
             ErrWebSocketDialFailed Ha Hc Eh).
      unfold streamSynthesize. fold g0.
      rewrite (acquire_admits appConfig g0) by exact Hroom.
      cbn [fst]. unfold synthesizeAdmitted.
      now rewrite setup_passes, Hj, Hd by exact Hfit.
    + intros Hd Hw.
      apply (serve_failed appConfig w g c text voice speed
             ErrMessageWriteFailed Ha Hc Eh).
      unfold streamSynthesize. fold g0.
      rewrite (acquire_admits appConfig g0) by exact Hroom.
      cbn [fst]. unfold synthesizeAdmitted.
      now rewrite setup_passes, Hj, Hd, Hw by exact Hfit.
Qed.

End Handler.

Lemma audio_only_when_authorised_witness :
  isValidAPIKey (presentedKey (sample_request "Bearer sk-test")) = true.
Proof.
  exact (proj1 (@audio_only_when_authorised sample_libraries sample_config
                  (sample_surroundings sample_upstream) (sample_globals 0)
                  (sample_request "Bearer sk-test") [Byte.x41; Byte.x42]
                  ltac:(vm_compute; reflexivity))).
Defined.

Lemma handler_restores_gauges_witness :
  semaphore
    (snd (@serveOpenAITTSRequest sample_libraries sample_config
            (sample_surroundings sample_upstream) (sample_globals 1)
            (sample_request "Bearer sk-test")))
  = semaphore (sample_globals 1).
Proof.
  exact (proj1 (proj1 (@handler_restores_gauges sample_libraries sample_config
                         (sample_surroundings sample_upstream)
                         (sample_globals 1) (sample_request "Bearer sk-test")
                         ltac:(vm_compute; split; [discriminate|reflexivity])
                         ltac:(vm_compute; split; [discriminate|reflexivity]))
                  ltac:(vm_compute; discriminate))).
Defined.

Lemma handler_accounting_witness :
  successCount
    (GlobalMetrics
       (snd (@serveOpenAITTSRequest sample_libraries sample_config
               (sample_surroundings sample_upstream) (sample_globals 0)
               (sample_request "Bearer sk-test"))))
  = 1.
Proof.
  exact (proj1 (@handler_accounting sample_libraries sample_config
                  (sample_surroundings sample_upstream) (sample_globals 0)
                  (sample_request "Bearer sk-test")
                  (AudioBody [Byte.x41; Byte.x42])
                  ltac:(vm_compute; split; [discriminate|reflexivity])
                  ltac:(vm_compute; split; [discriminate|reflexivity])
                  ltac:(vm_compute; reflexivity))).
Defined.


Lemma authentication_failures_witness :
  @serveOpenAITTSRequest sample_libraries sample_config
    (sample_surroundings sample_upstream) (sample_globals 0)
    (sample_request "")
  = (Some (ErrorJSON StatusUnauthorized "invalid_api_key"), sample_globals 0).
Proof.
  exact (proj1 (@authentication_failures sample_libraries sample_config
                  (sample_surroundings sample_upstream) (sample_globals 0)
                  (sample_request "")
                  ltac:(vm_compute; split; [discriminate|reflexivity])
                  ltac:(vm_compute; discriminate))
           (or_introl eq_refl)).
Defined.

Lemma failed_call_status_witness :
  @serveOpenAITTSRequest sample_libraries sample_config
    (sample_surroundings sample_upstream) (sample_globals 2)
    (sample_request "Bearer sk-test")
  = (Some (ErrorJSON StatusServiceUnavailable "service_overloaded"),
     {| semaphore := 2;
        GlobalMetrics :=
          RecordError
            (RecordRequest (GlobalMetrics (sample_globals 2)) false 1500)
            "2024-01-01T00:00:00Z" "service_overloaded" "error" |}).
Proof.
  exact (proj1 (@failed_call_status sample_libraries sample_config
                  (sample_surroundings sample_upstream) (sample_globals 2)
                  (sample_request "Bearer sk-test") "hello" "alloy" 1%float []
                  ltac:(vm_compute; split; [discriminate|reflexivity])
                  ltac:(vm_compute; split; [discriminate|reflexivity])
                  ltac:(vm_compute; reflexivity))
           ltac:(vm_compute; discriminate)).
Defined.

End HandlerExtras.
